(** * Pre-publish checks of np: a shallow embedding of lib/prerequisite.js

    The exported function of [lib/prerequisite.js] builds an ordered list of
    seven checks over two closure variables ([newVersion], [tagPrefix]) and
    hands it to a task runner.  The checks talk to the outside world through
    [execa] (external commands), [p-timeout] (a deadline) and the version
    helpers of [lib/version.js].

    The development is organised as follows:
    - [Js]: the fragment of JavaScript values the file manipulates;
    - errors, external commands and the promise combinators
      ([then_], [catch_], [then2], [pTimeout]);
    - the seven checks and the construction of the pipeline;
    - the runner;
    - a reference version helper and scripted worlds, used to run the
      model on concrete inputs;
    - the properties. *)

From Stdlib Require Import String Ascii List Bool Arith NArith Lia.
From Stdlib Require Import DecimalString.
Import ListNotations.
Open Scope string_scope.
#[local] Set Warnings "-register-all".

(* ===================================================================== *)
(** ** JavaScript values *)
(* ===================================================================== *)

Module Js.

(** Values as produced by [JSON.parse] and as found in the fields of the
    package descriptor, plus [undefined]. *)
Inductive jsval : Type :=
| VUndefined
| VNull
| VBool (b : bool)
| VNum (n : N)
| VStr (s : string)
| VArr (items : list jsval)
| VObj (fields : list (string * jsval)).

(** [typeof v]. *)
Definition typeof (v : jsval) : string :=
  match v with
  | VUndefined => "undefined"
  | VNull => "object"
  | VBool _ => "boolean"
  | VNum _ => "number"
  | VStr _ => "string"
  | VArr _ => "object"
  | VObj _ => "object"
  end.

(** Truthiness, as used by [!v] and [if (v)]. *)
Definition truthy (v : jsval) : bool :=
  match v with
  | VUndefined | VNull => false
  | VBool b => b
  | VNum n => negb (N.eqb n 0)
  | VStr s => negb (String.eqb s EmptyString)
  | VArr _ | VObj _ => true
  end.

(** Truthiness of a string ([if (output)]). *)
Definition truthy_str (s : string) : bool := negb (String.eqb s EmptyString).

Fixpoint assoc (k : string) (fields : list (string * jsval)) : option jsval :=
  match fields with
  | [] => None
  | (k', v) :: rest => if String.eqb k k' then Some v else assoc k rest
  end.

(** Property read [v[k]] / [v.k].  Reading a property of [undefined] or
    [null] throws a TypeError ([None] here).  Only own data properties of
    plain objects are modelled: inherited members and the built-in
    members of arrays and primitives read as [undefined]. *)
Definition get_prop (v : jsval) (k : string) : option jsval :=
  match v with
  | VUndefined | VNull => None
  | VObj fields =>
      match assoc k fields with
      | Some x => Some x
      | None => Some VUndefined
      end
  | _ => Some VUndefined
  end.

(** [hay.includes(needle)] on strings, and [re.test(hay)] for a regular
    expression that is a plain word. *)
Fixpoint str_includes (needle hay : string) : bool :=
  String.prefix needle hay
  || match hay with
     | EmptyString => false
     | String _ rest => str_includes needle rest
     end.

Fixpoint drop (n : nat) (s : string) : string :=
  match n, s with
  | O, _ => s
  | S _, EmptyString => EmptyString
  | S m, String _ rest => drop m rest
  end.

(** [s.replace(pat, rep)] with a string pattern: the first occurrence
    only. *)
Fixpoint replace_first (pat rep s : string) : string :=
  if String.prefix pat s then rep ++ drop (String.length pat) s
  else match s with
       | EmptyString => EmptyString
       | String c rest => String c (replace_first pat rep rest)
       end.

(** [arr.join(sep)] on an array of strings. *)
Definition join (sep : string) (l : list string) : string :=
  String.concat sep l.

Definition is_str (v : jsval) (s : string) : bool :=
  match v with
  | VStr s' => String.eqb s' s
  | _ => false
  end.

(** [v.includes('write')]: defined on strings and arrays; on any other
    truthy value the member is missing and the call throws ([None]). *)
Definition includes (v : jsval) (s : string) : option bool :=
  match v with
  | VStr hay => Some (str_includes s hay)
  | VArr items => Some (existsb (fun x => is_str x s) items)
  | _ => None
  end.

(** What a template literal prints for a value. *)
Definition show (v : jsval) : string :=
  match v with
  | VUndefined => "undefined"
  | VNull => "null"
  | VBool true => "true"
  | VBool false => "false"
  | VNum n => NilEmpty.string_of_uint (N.to_uint n)
  | VStr s => s
  | VArr _ => "[array]"
  | VObj _ => "[object Object]"
  end.

End Js.
Import Js.

(* ===================================================================== *)
(** ** Errors *)
(* ===================================================================== *)

(** What [execa] rejects with when the command fails. *)
Record exec_error := {
  e_message : string;
  e_stdout : string;
  e_stderr : string
}.

(** What [execa] resolves with. *)
Record exec_output := {
  o_stdout : string;
  o_stderr : string
}.

Inductive error : Type :=
| ExecError (e : exec_error)
| Error (msg : string)
| TimeoutError (msg : string)
| TypeError (msg : string)
| SyntaxError (msg : string).

(** [err.message], the text the runner reports. *)
Definition message (e : error) : string :=
  match e with
  | ExecError x => e_message x
  | Error m | TimeoutError m | TypeError m | SyntaxError m => m
  end.

(** [err.stdout] and [err.stderr]: only the rejections of [execa] carry
    them; [None] stands for [undefined]. *)
Definition stdout_of (e : error) : option string :=
  match e with
  | ExecError x => Some (e_stdout x)
  | _ => None
  end.

Definition stderr_of (e : error) : option string :=
  match e with
  | ExecError x => Some (e_stderr x)
  | _ => None
  end.

(** [s !== empty] for a field that may be [undefined]. *)
Definition not_empty_string (s : option string) : bool :=
  match s with
  | Some x => negb (String.eqb x EmptyString)
  | None => true
  end.

(* ===================================================================== *)
(** ** Collaborators *)
(* ===================================================================== *)

(** Modelled from the spec: [lib/version.js] (the [version] module required
    on line 5) is not part of the sources at hand.  Its exports are taken as
    an interface with the signatures the specification gives for the
    Version Oracle.  [isPrereleaseVersion] is applied to the variable
    [newVersion], which is [null] until it is assigned, and [satisfies] to a
    field of a parsed JSON document. *)
Class VersionApi := {
  SEMVER_INCREMENTS : list string;
  isValidVersionInput : string -> bool;
  getNewVersion : string -> string -> string;
  isVersionGreater : string -> string -> bool;
  isVersionLower : string -> string -> bool;
  isPrereleaseVersion : option string -> bool;
  satisfies : jsval -> string -> bool
}.

(** How an external command ends in a world [w]: it exits after [t]
    milliseconds, with a failure or with its captured output, leaving the
    world [w']; or it never exits. *)
Inductive response (W : Type) : Type :=
| Exits (t : N) (r : exec_error + exec_output) (w' : W)
| Hangs.
Arguments Exits {W} t r w'.
Arguments Hangs {W}.

(** The process the pipeline runs in: the external commands ([execa]),
    [JSON.parse] ([None] when it throws a SyntaxError), [process.env.NODE_ENV]
    and [process.version]. *)
Class Host (W : Type) := {
  spawn : list string -> W -> response W;
  JSON_parse : string -> option jsval;
  NODE_ENV : option string;
  process_version : string
}.

(* ===================================================================== *)
(** ** Inputs of the exported function *)
(* ===================================================================== *)

(** The package descriptor [pkg]. *)
Record package := {
  name : string;
  version : string;
  private : bool;
  publishConfig : jsval
}.

(** The options [opts]. *)
Record options := {
  publish : bool;
  tag : option string;
  yarn : bool
}.

(** [!opts.tag]: no tag, or an empty one. *)
Definition no_tag (o : options) : bool :=
  match tag o with
  | Some s => String.eqb s EmptyString
  | None => true
  end.

(* ===================================================================== *)
(** ** Promises over the closure state *)
(* ===================================================================== *)

Section Promises.
Context {W : Type}.

(** The world together with the two variables the checks close over
    (lines 8 and 9). *)
Record state := {
  world : W;
  newVersion : option string;
  tagPrefix : string
}.

Definition init (w : W) : state :=
  {| world := w; newVersion := None; tagPrefix := "v" |}.

Inductive result (A : Type) : Type :=
| Resolved (a : A)
| Rejected (e : error).

(** A promise started in a state either settles after [t] milliseconds, or
    stays pending for ever. *)
Inductive settle (A : Type) : Type :=
| Settled (t : N) (r : result A) (s : state)
| Pending (s : state).

Definition async (A : Type) : Type := state -> settle A.

End Promises.

Arguments state W : clear implicits.
Arguments Resolved {A} a.
Arguments Rejected {A} e.
Arguments Settled {W A} t r s.
Arguments Pending {W A} s.
Arguments async W A : clear implicits.

Section Combinators.
Context {W : Type}.

(** Returning [a] from a handler. *)
Definition resolve {A} (a : A) : async W A :=
  fun s => Settled 0 (Resolved a) s.

(** [throw e] inside a handler. *)
Definition throw {A} (e : error) : async W A :=
  fun s => Settled 0 (Rejected e) s.

Definition after {A} (t : N) (x : @settle W A) : settle A :=
  match x with
  | Settled t' r s => Settled (t + t') r s
  | Pending s => Pending s
  end.

(** [p.then(f, g)]: [g] handles a rejection of [p], not one of [f]. *)
Definition then2 {A B} (p : async W A) (f : A -> async W B)
    (g : error -> async W B) : async W B :=
  fun s =>
    match p s with
    | Settled t (Resolved a) s' => after t (f a s')
    | Settled t (Rejected e) s' => after t (g e s')
    | Pending s' => Pending s'
    end.

(** [p.then(f)]. *)
Definition then_ {A B} (p : async W A) (f : A -> async W B) : async W B :=
  then2 p f throw.

(** [p.catch(g)]. *)
Definition catch_ {A} (p : async W A) (g : error -> async W A) : async W A :=
  then2 p resolve g.

(** The runner ignores the value a check resolves with. *)
Definition discard {A} (p : async W A) : async W unit :=
  then_ p (fun _ => resolve tt).

(** [pTimeout(p, ms, msg)] of the p-timeout package: [p] when it settles
    before the deadline, a rejection with [msg] at the deadline otherwise.
    A promise that settles exactly at the deadline counts as late.  What the
    abandoned work does to the world after the deadline is not observed. *)
Definition pTimeout {A} (p : async W A) (ms : N) (msg : string) : async W A :=
  fun s =>
    match p s with
    | Settled t r s' =>
        if (t <? ms)%N then Settled t r s'
        else Settled ms (Rejected (TimeoutError msg)) s
    | Pending s' => Settled ms (Rejected (TimeoutError msg)) s'
    end.

(** Reads and writes of the closure variables. *)
Definition get_newVersion : async W (option string) :=
  fun s => Settled 0 (Resolved (newVersion s)) s.

Definition set_newVersion (v : option string) : async W unit :=
  fun s => Settled 0 (Resolved tt)
    {| world := world s; newVersion := v; tagPrefix := tagPrefix s |}.

Definition get_tagPrefix : async W string :=
  fun s => Settled 0 (Resolved (tagPrefix s)) s.

Definition set_tagPrefix (v : string) : async W unit :=
  fun s => Settled 0 (Resolved tt)
    {| world := world s; newVersion := newVersion s; tagPrefix := v |}.

Context {H : Host W}.

(** [execa(cmd, args)], with [argv = cmd :: args]. *)
Definition execa (argv : list string) : async W exec_output :=
  fun s =>
    match spawn argv (world s) with
    | Exits t (inr o) w' =>
        Settled t (Resolved o)
          {| world := w'; newVersion := newVersion s; tagPrefix := tagPrefix s |}
    | Exits t (inl e) w' =>
        Settled t (Rejected (ExecError e))
          {| world := w'; newVersion := newVersion s; tagPrefix := tagPrefix s |}
    | Hangs => Pending s
    end.

(** [execa.stdout(cmd, args)]. *)
Definition execa_stdout (argv : list string) : async W string :=
  then_ (execa argv) (fun o => resolve (o_stdout o)).

End Combinators.

(* ===================================================================== *)
(** ** The checks (lines 12 to 112) *)
(* ===================================================================== *)

(** One entry of the [tasks] array: a title, the optional gates [skip] and
    [enabled], and the action [task]. *)
Record check (W : Type) := {
  title : string;
  skip : option (unit -> bool);
  enabled : option (unit -> bool);
  task : async W unit
}.
Arguments title {W} c.
Arguments skip {W} c.
Arguments enabled {W} c.
Arguments task {W} c.

(** [/ENEEDAUTH/.test(x)]: an [undefined] argument is tested as the text
    "undefined". *)
Definition regex_test (word : string) (x : option string) : bool :=
  match x with
  | Some s => str_includes word s
  | None => str_includes word "undefined"
  end.

(** [`${newVersion}`]: [null] prints as "null". *)
Definition show_version (v : option string) : string :=
  match v with
  | Some s => s
  | None => "null"
  end.

(** Line 10.  [None] is the TypeError thrown by reading [registry] from
    [null]. *)
Definition isExternalRegistry (pkg : package) : option bool :=
  if String.eqb (typeof (publishConfig pkg)) "object" then
    match get_prop (publishConfig pkg) "registry" with
    | Some r => Some (String.eqb (typeof r) "string")
    | None => None
    end
  else Some false.

Section Checks.
Context {W : Type} {V : VersionApi} {H : Host W}.
Variable input : string.
Variable pkg : package.
Variable opts : options.
Variable external : bool.

Definition msg_ping_failed : string := "Connection to npm registry failed".
Definition msg_ping_timeout : string := "Connection to npm registry timed out".
Definition msg_need_login : string :=
  "You must be logged in to publish packages. Use `npm login` and try again.".
Definition msg_auth_error : string :=
  "Authentication error. Use `npm whoami` to troubleshoot.".
Definition msg_no_write : string :=
  "You do not have write permissions required to publish this package.".
Definition msg_need_tag : string :=
  "You must specify a dist-tag using --tag when publishing a pre-release version. This prevents accidentally tagging unstable versions as " ++ String "034" "latest" ++ String "034" ". https://docs.npmjs.com/cli/dist-tag".

Definition msg_bad_input : string :=
  "Version should be either " ++ join ", " SEMVER_INCREMENTS
  ++ ", or a valid semver version.".

Definition msg_not_higher (nv : string) : string :=
  "New version `" ++ nv ++ "` should be higher than current version `"
  ++ version pkg ++ "`".

Definition msg_npm_issue (npm : jsval) : string :=
  "npm@" ++ show npm ++ " has known issues publishing when running Node.js 6. Please upgrade npm or downgrade Node and publish again. https://github.com/npm/npm/issues/5082".

Definition msg_tag_exists (prefix : string) (nv : option string) : string :=
  "Git tag `" ++ prefix ++ show_version nv ++ "` already exists.".

(** Lines 13 to 20. *)
Definition ping_task : async W string :=
  pTimeout
    (catch_ (execa_stdout ["npm"; "ping"])
       (fun _ => throw (Error msg_ping_failed)))
    15000 msg_ping_timeout.

Definition ping_registry : check W := {|
  title := "Ping npm registry";
  skip := Some (fun _ => private pkg || external);
  enabled := None;
  task := discard ping_task
|}.

(** Lines 32 to 38: the handler applied to the output of
    [npm access ls-collaborators]. *)
Definition check_write_access (username collaborators : string) : async W unit :=
  match JSON_parse collaborators with
  | None => throw (SyntaxError "Unexpected token in JSON")
  | Some json =>
      match get_prop json username with
      | None => throw (TypeError "Cannot read property of null")
      | Some permissions =>
          if negb (truthy permissions) then throw (Error msg_no_write)
          else match includes permissions "write" with
               | None => throw (TypeError "permissions.includes is not a function")
               | Some has_write =>
                   if negb has_write then throw (Error msg_no_write)
                   else resolve tt
               end
      end
  end.

(** Lines 31 to 39: the lookup, its handler, and the [catch] chained after
    both. *)
Definition collaborators_step (username : string) : async W unit :=
  catch_
    (then_ (execa_stdout ["npm"; "access"; "ls-collaborators"; name pkg])
       (check_write_access username))
    (fun _ => resolve tt).

(** Lines 24 to 29. *)
Definition whoami_step : async W string :=
  catch_ (execa_stdout ["npm"; "whoami"])
    (fun err =>
       throw (Error (if regex_test "ENEEDAUTH" (stderr_of err)
                     then msg_need_login else msg_auth_error))).

(** Lines 21 to 40. *)
Definition verify_user : check W := {|
  title := "Verify user is authenticated";
  skip := Some (fun _ =>
    match NODE_ENV with
    | Some e => String.eqb e "test"
    | None => false
    end || private pkg || external);
  enabled := None;
  task := then_ whoami_step collaborators_step
|}.

(** Lines 41 to 47. *)
Definition check_git_remote : check W := {|
  title := "Check git remote";
  skip := None;
  enabled := None;
  task := discard
    (catch_ (execa_stdout ["git"; "ls-remote"; "origin"; "HEAD"])
       (fun err =>
          match stderr_of err with
          | Some s => throw (Error (replace_first "fatal:" "Git fatal error:" s))
          | None => throw (TypeError "Cannot read property 'replace' of undefined")
          end))
|}.

(** Lines 50 to 60. *)
Definition validate_task : async W unit :=
  if negb (isValidVersionInput input) then throw (Error msg_bad_input)
  else
    let nv := getNewVersion (version pkg) input in
    then_ (set_newVersion (Some nv))
      (fun _ =>
         if negb (isVersionGreater (version pkg) nv)
         then throw (Error (msg_not_higher nv))
         else resolve tt).

Definition validate_version : check W := {|
  title := "Validate version";
  skip := None;
  enabled := None;
  task := validate_task
|}.

(** Lines 65 to 69. *)
Definition prerelease_task : async W unit :=
  then_ get_newVersion
    (fun nv =>
       if negb (private pkg) && isPrereleaseVersion nv && no_tag opts
       then throw (Error msg_need_tag)
       else resolve tt).

Definition check_prerelease : check W := {|
  title := "Check for pre-release version";
  skip := None;
  enabled := Some (fun _ => publish opts);
  task := prerelease_task
|}.

(** Lines 74 to 79. *)
Definition npm_version_task : async W unit :=
  then_ (execa_stdout ["npm"; "version"; "--json"])
    (fun json =>
       match JSON_parse json with
       | None => throw (SyntaxError "Unexpected token in JSON")
       | Some versions =>
           match get_prop versions "npm" with
           | None => throw (TypeError "Cannot read property 'npm' of null")
           | Some npm =>
               if negb (satisfies npm ">=2.15.8 <3.0.0 || >=3.10.1")
               then throw (Error (msg_npm_issue npm))
               else resolve tt
           end
       end).

Definition check_npm_version : check W := {|
  title := "Check npm version";
  skip := Some (fun _ => isVersionLower "6.0.0" process_version);
  enabled := None;
  task := npm_version_task
|}.

(** Lines 83 to 95: fetch, ask the package manager for its tag prefix, and
    keep the answer when there is one. *)
Definition resolve_tag_prefix : async W unit :=
  then2
    (then_ (execa ["git"; "fetch"])
       (fun _ =>
          if yarn opts
          then execa_stdout ["yarn"; "config"; "get"; "version-tag-prefix"]
          else execa_stdout ["npm"; "config"; "get"; "tag-version-prefix"]))
    (fun output => set_tagPrefix output)
    (fun _ => resolve tt).

(** The argument vector of line 96, with the variables read when the
    callback runs. *)
Definition rev_parse_argv (s : state W) : list string :=
  ["git"; "rev-parse"; "--quiet"; "--verify";
   "refs/tags/" ++ tagPrefix s ++ show_version (newVersion s)].

Definition tag_lookup : async W string :=
  fun s => execa_stdout (rev_parse_argv s) s.

(** Lines 98 to 102. *)
Definition on_tag_found (output : string) : async W unit :=
  fun s =>
    if truthy_str output
    then throw (Error (msg_tag_exists (tagPrefix s) (newVersion s))) s
    else resolve tt s.

(** Lines 103 to 109. *)
Definition on_lookup_failed (err : error) : async W unit :=
  if not_empty_string (stdout_of err) || not_empty_string (stderr_of err)
  then throw err
  else resolve tt.

(** Lines 83 to 110. *)
Definition tag_task : async W unit :=
  then2 (then_ resolve_tag_prefix (fun _ => tag_lookup))
    on_tag_found on_lookup_failed.

Definition check_git_tag : check W := {|
  title := "Check git tag existence";
  skip := None;
  enabled := None;
  task := tag_task
|}.

(** Lines 12 to 112. *)
Definition tasks : list (check W) :=
  [ ping_registry; verify_user; check_git_remote; validate_version;
    check_prerelease; check_npm_version; check_git_tag ].

End Checks.

(** The exported function (lines 7 to 115): the TypeError of line 10, or
    the checks handed to the runner. *)
Definition prerequisite {W} {V : VersionApi} {H : Host W}
    (input : string) (pkg : package) (opts : options)
    : error + list (check W) :=
  match isExternalRegistry pkg with
  | None => inl (TypeError "Cannot read property 'registry' of null")
  | Some external => inr (tasks input pkg opts external)
  end.

(* ===================================================================== *)
(** ** The runner *)
(* ===================================================================== *)

(** What the report says of a check the runner got to. *)
Inductive status : Type :=
| Skipped
| Completed
| Failed (msg : string)
| Unsettled.

Inductive outcome (W : Type) : Type :=
| Success (s : state W)
| Failure (checkTitle msg : string).
Arguments Success {W} s.
Arguments Failure {W} checkTitle msg.

Definition gate_skip {W} (c : check W) : bool :=
  match skip c with
  | Some f => f tt
  | None => false
  end.

Definition gate_enabled {W} (c : check W) : bool :=
  match enabled c with
  | Some f => f tt
  | None => true
  end.

(** Modelled from the spec: the two gates are combined with "or" for
    "do not run". *)
Definition excluded {W} (c : check W) : bool :=
  gate_skip c || negb (gate_enabled c).

(** Modelled from the spec: the task runner (the listr package the array is
    handed to on line 114) is not part of the sources at hand.  This is the
    Pipeline Runner of the specification: checks are taken in declaration
    order; a check whose [skip] gate is true or whose [enabled] gate is
    false is marked skipped and its action is not run; otherwise the action
    is awaited; the first rejection stops the run with the title of the
    check and the message of the error; the runner applies no deadline of
    its own, so a check that never settles leaves the run without an
    outcome.  The report lists, in order, every check the runner got to and
    what became of it; the outcome is [None] when the run never returns. *)
Fixpoint run {W} (checks : list (check W)) (s : state W)
    : list (string * status) * option (outcome W) :=
  match checks with
  | [] => ([], Some (Success s))
  | c :: rest =>
      if excluded c then
        let (report, o) := run rest s in ((title c, Skipped) :: report, o)
      else
        match task c s with
        | Settled _ (Resolved _) s' =>
            let (report, o) := run rest s' in
            ((title c, Completed) :: report, o)
        | Settled _ (Rejected e) _ =>
            ([(title c, Failed (message e))],
             Some (Failure (title c) (message e)))
        | Pending _ => ([(title c, Unsettled)], None)
        end
  end.

(** Building the pipeline and running it in a fresh closure. *)
Definition release_checks {W} {V : VersionApi} {H : Host W}
    (input : string) (pkg : package) (opts : options) (w : W)
    : error + (list (string * status) * option (outcome W)) :=
  match prerequisite input pkg opts with
  | inl e => inl e
  | inr checks => inr (run checks (init w))
  end.

(* ===================================================================== *)
(** ** A reference version helper *)
(* ===================================================================== *)

(** Modelled from the spec: an executable stand-in for [lib/version.js],
    used to run the checks on concrete inputs.  It covers versions of the
    form [major.minor.patch] with an optional leading [v] and an optional
    [-tag] suffix, the increment keywords [patch], [minor] and [major], and
    ranges made of [>=] and [<] comparators joined by spaces and [||].  A
    tagged version sorts below the same version without a tag; two tags are
    not ordered. *)
Module RefVersion.

Record semver := {
  major : N;
  minor : N;
  patch : N;
  pre : option string
}.

Definition digit_of (c : ascii) : option N :=
  let n := N_of_ascii c in
  if ((48 <=? n) && (n <=? 57))%N then Some (n - 48)%N else None.

Fixpoint parse_digits (s : string) (acc : N) : option N :=
  match s with
  | EmptyString => Some acc
  | String c rest =>
      match digit_of c with
      | Some d => parse_digits rest (acc * 10 + d)%N
      | None => None
      end
  end.

Definition parse_number (s : string) : option N :=
  match s with
  | EmptyString => None
  | _ => parse_digits s 0%N
  end.

Fixpoint split_on (sep : ascii) (s : string) : list string :=
  match s with
  | EmptyString => [EmptyString]
  | String c rest =>
      if Ascii.eqb c sep then EmptyString :: split_on sep rest
      else match split_on sep rest with
           | h :: t => String c h :: t
           | [] => [String c EmptyString]
           end
  end.

(** The text before the first [sep], and the text after it if any. *)
Fixpoint cut_at (sep : ascii) (s : string) : string * option string :=
  match s with
  | EmptyString => (EmptyString, None)
  | String c rest =>
      if Ascii.eqb c sep then (EmptyString, Some rest)
      else let (h, t) := cut_at sep rest in (String c h, t)
  end.

Definition strip_v (s : string) : string :=
  match s with
  | String c rest => if Ascii.eqb c "v" then rest else s
  | EmptyString => s
  end.

Definition parse (s : string) : option semver :=
  let (core, tagged) := cut_at "-" (strip_v s) in
  match map parse_number (split_on "." core) with
  | [Some a; Some b; Some c] =>
      match tagged with
      | Some EmptyString => None
      | _ => Some {| major := a; minor := b; patch := c; pre := tagged |}
      end
  | _ => None
  end.

Definition print_number (n : N) : string :=
  NilEmpty.string_of_uint (N.to_uint n).

Definition print (v : semver) : string :=
  print_number (major v) ++ "." ++ print_number (minor v) ++ "."
  ++ print_number (patch v)
  ++ match pre v with
     | Some t => "-" ++ t
     | None => EmptyString
     end.

(** Strict precedence. *)
Definition lt (a b : semver) : bool :=
  match (major a ?= major b)%N with
  | Lt => true
  | Gt => false
  | Eq =>
      match (minor a ?= minor b)%N with
      | Lt => true
      | Gt => false
      | Eq =>
          match (patch a ?= patch b)%N with
          | Lt => true
          | Gt => false
          | Eq =>
              match pre a, pre b with
              | Some _, None => true
              | _, _ => false
              end
          end
      end
  end.

Definition increments : list string := ["patch"; "minor"; "major"].

Definition inc (v : semver) (keyword : string) : semver :=
  if String.eqb keyword "major" then
    {| major := major v + 1; minor := 0; patch := 0; pre := None |}
  else if String.eqb keyword "minor" then
    {| major := major v; minor := minor v + 1; patch := 0; pre := None |}
  else
    match pre v with
    | Some _ =>
        {| major := major v; minor := minor v; patch := patch v; pre := None |}
    | None =>
        {| major := major v; minor := minor v; patch := patch v + 1;
           pre := None |}
    end.

Definition is_increment (input : string) : bool :=
  existsb (String.eqb input) increments.

Definition valid_input (input : string) : bool :=
  is_increment input
  || match parse input with
     | Some _ => true
     | None => false
     end.

Definition new_version (current input : string) : string :=
  if is_increment input then
    match parse current with
    | Some v => print (inc v input)
    | None => current
    end
  else input.

(** [greater old new]: [new] is above [old], the reading lines 57 and 58
    rely on. *)
Definition greater (old new : string) : bool :=
  match parse old, parse new with
  | Some a, Some b => lt a b
  | _, _ => false
  end.

(** [lower old new]: [new] is below [old], with the arguments in the order
    of [greater].  This makes the gate of line 73 leave the npm check out on
    a Node older than 6, the version the message of line 77 is about. *)
Definition lower (old new : string) : bool :=
  match parse old, parse new with
  | Some a, Some b => lt b a
  | _, _ => false
  end.

Definition prerelease (v : option string) : bool :=
  match v with
  | Some s =>
      match parse s with
      | Some x =>
          match pre x with
          | Some _ => true
          | None => false
          end
      | None => false
      end
  | None => false
  end.

(** One comparator, [>=x.y.z] or [<x.y.z]. *)
Definition comparator_holds (v : semver) (c : string) : bool :=
  match c with
  | String ">" (String "=" bound) =>
      match parse bound with
      | Some b => negb (lt v b)
      | None => false
      end
  | String "<" bound =>
      match parse bound with
      | Some b => lt v b
      | None => false
      end
  | _ => false
  end.

(** Tokens of a range, read left to right: [all] tells whether every
    comparator of the current alternative held so far. *)
Fixpoint range_holds (v : semver) (tokens : list string) (all : bool) : bool :=
  match tokens with
  | [] => all
  | t :: rest =>
      if String.eqb t "||" then all || range_holds v rest true
      else range_holds v rest (all && comparator_holds v t)
  end.

Definition in_range (x : jsval) (range : string) : bool :=
  match x with
  | VStr s =>
      match parse s with
      | Some v => range_holds v (split_on " " range) true
      | None => false
      end
  | _ => false
  end.

#[export] Instance api : VersionApi := {|
  SEMVER_INCREMENTS := increments;
  isValidVersionInput := valid_input;
  getNewVersion := new_version;
  isVersionGreater := greater;
  isVersionLower := lower;
  isPrereleaseVersion := prerelease;
  satisfies := in_range
|}.

End RefVersion.

(* ===================================================================== *)
(** ** Scripted worlds *)
(* ===================================================================== *)

(** A world that answers each command line from a fixed script and never
    changes; [JSON.parse] is a table of the documents that occur. *)
Module Scripted.

Fixpoint argv_eqb (a b : list string) : bool :=
  match a, b with
  | [], [] => true
  | x :: a', y :: b' => String.eqb x y && argv_eqb a' b'
  | _, _ => false
  end.

Definition script := list (list string * response unit).

Definition ok (t : N) (out : string) : response unit :=
  Exits t (inr {| o_stdout := out; o_stderr := EmptyString |}) tt.

Definition ko (t : N) (out err : string) : response unit :=
  Exits t (inl {| e_message := "Command failed"; e_stdout := out;
                  e_stderr := err |}) tt.

(** Commands the script does not mention succeed at once, silently. *)
Fixpoint answer (sc : script) (argv : list string) : response unit :=
  match sc with
  | [] => ok 0 EmptyString
  | (cmd, r) :: rest => if argv_eqb cmd argv then r else answer rest argv
  end.

Fixpoint parse_table (docs : list (string * jsval)) (text : string)
    : option jsval :=
  match docs with
  | [] => None
  | (t, v) :: rest => if String.eqb t text then Some v else parse_table rest text
  end.

Definition host (sc : script) (docs : list (string * jsval))
    (env : option string) (node : string) : Host unit := {|
  spawn := fun argv _ => answer sc argv;
  JSON_parse := parse_table docs;
  NODE_ENV := env;
  process_version := node
|}.

End Scripted.

(* ===================================================================== *)
(** ** Vocabulary of the properties *)
(* ===================================================================== *)

(** The state a promise leaves behind, settled or not. *)
Definition final_state {W A} (x : @settle W A) : state W :=
  match x with
  | Settled _ _ s => s
  | Pending s => s
  end.

(** An action that never assigns [newVersion], respectively [tagPrefix]. *)
Definition keeps_newVersion {W A} (p : async W A) : Prop :=
  forall s, newVersion (final_state (p s)) = newVersion s.

Definition keeps_tagPrefix {W A} (p : async W A) : Prop :=
  forall s, tagPrefix (final_state (p s)) = tagPrefix s.

(** An action that fails in state [s] with the message [msg]. *)
Definition fails_with {W A} (p : async W A) (s : state W) (msg : string) : Prop :=
  exists t e s', p s = Settled t (Rejected e) s' /\ message e = msg.

(** An action that succeeds in state [s]. *)
Definition succeeds {W A} (p : async W A) (s : state W) : Prop :=
  exists t a s', p s = Settled t (Resolved a) s'.

(** The same check with another action. *)
Definition with_task {W} (c : check W) (a : async W unit) : check W :=
  {| title := title c; skip := skip c; enabled := enabled c; task := a |}.

(** The checks that read [newVersion]: lines 66, 96 and 100. *)
Definition reads_newVersion {W} (c : check W) : Prop :=
  title c = "Check for pre-release version"
  \/ title c = "Check git tag existence".

(** The pre-release check as the specification words it: it runs only when
    publishing was requested, it is skipped for a private package, and,
    when it runs, it fails exactly for a pre-release version without a
    dist-tag. *)
Definition prerelease_check_as_specified {W} {V : VersionApi}
    (pkg : package) (opts : options) (s : state W) : Prop :=
  let c : check W := check_prerelease pkg opts in
  (publish opts = false -> excluded c = true)
  /\ (private pkg = true -> excluded c = true)
  /\ (excluded c = false ->
      ((exists msg, fails_with (task c) s msg)
       <-> (isPrereleaseVersion (newVersion s) = true /\ no_tag opts = true))).



(** The closure once a command has left the world [w]: the two variables
    are as they were. *)
Definition moved {W} (s : state W) (w : W) : state W :=
  {| world := w; newVersion := newVersion s; tagPrefix := tagPrefix s |}.

(** Line 86 or line 88, according to [opts.yarn]. *)
Definition config_argv (opts : options) : list string :=
  if yarn opts
  then ["yarn"; "config"; "get"; "version-tag-prefix"]
  else ["npm"; "config"; "get"; "tag-version-prefix"].

(** Lines 96 to 110 on their own: the lookup with its two handlers. *)
Definition lookup_phase {W} {H : Host W} : async W unit :=
  then2 tag_lookup on_tag_found on_lookup_failed.

(* ===================================================================== *)
(** ** Concrete inputs *)
(* ===================================================================== *)

Module Scenario.
Import Scripted.

Definition pk : package :=
  {| name := "np"; version := "1.2.3"; private := false;
     publishConfig := VUndefined |}.

Definition pk_private : package :=
  {| name := "np"; version := "1.2.3"; private := true;
     publishConfig := VUndefined |}.

Definition pk_null : package :=
  {| name := "np"; version := "1.2.3"; private := false;
     publishConfig := VNull |}.

Definition pk_registry : package :=
  {| name := "np"; version := "1.2.3"; private := false;
     publishConfig := VObj [("registry", VStr "https://npm.example.com")] |}.

Definition op_publish : options :=
  {| publish := true; tag := None; yarn := false |}.

Definition op_no_publish : options :=
  {| publish := false; tag := None; yarn := false |}.

Definition whoami : list string := ["npm"; "whoami"].
Definition ls_collaborators : list string :=
  ["npm"; "access"; "ls-collaborators"; "np"].
Definition get_prefix : list string :=
  ["npm"; "config"; "get"; "tag-version-prefix"].
Definition rev_parse (tagname : string) : list string :=
  ["git"; "rev-parse"; "--quiet"; "--verify"; "refs/tags/" ++ tagname].

(** A text between double quotes. *)
Definition quoted (s : string) : string :=
  String "034" (s ++ String "034" EmptyString).

(** The collaborators of a package on which alice has no rights. *)
Definition doc_bob_only : string :=
  "{" ++ quoted "bob" ++ ":" ++ quoted "read-write" ++ "}".

Definition docs : list (string * jsval) :=
  [(doc_bob_only, VObj [("bob", VStr "read-write")])].

(** A healthy setup on Node 5: every command succeeds, the tag is free. *)
Definition healthy : script :=
  [(whoami, ok 20 "alice");
   (get_prefix, ok 3 "v");
   (rev_parse "v1.2.4", ko 5 EmptyString EmptyString)].

Definition host_healthy : Host unit := host healthy docs None "v5.12.0".

(** alice is logged in and is not a collaborator. *)
Definition host_no_write : Host unit :=
  host ((ls_collaborators, ok 30 doc_bob_only) :: healthy) docs None "v5.12.0".

(** The tag is already there. *)
Definition host_tag_exists : Host unit :=
  host [(get_prefix, ok 3 "v"); (rev_parse "v1.2.4", ok 5 "abcd1234")]
    docs None "v5.12.0".

(** git itself breaks during the lookup. *)
Definition host_git_broken : Host unit :=
  host [(get_prefix, ok 3 "v");
        (rev_parse "v1.2.4", ko 5 EmptyString "fatal: not a git repository")]
    docs None "v5.12.0".

(** The package manager cannot tell its tag prefix. *)
Definition host_no_prefix : Host unit :=
  host [(get_prefix, ko 3 EmptyString "npm ERR!");
        (rev_parse "v1.2.4", ko 5 EmptyString EmptyString)]
    docs None "v5.12.0".

(** The registry answers with an error, too late, or never. *)
Definition host_ping_fails : Host unit :=
  host [(["npm"; "ping"], ko 800 EmptyString "npm ERR! ping")] docs None "v5.12.0".

Definition host_ping_slow : Host unit :=
  host [(["npm"; "ping"], ok 20000 "pong")] docs None "v5.12.0".

Definition host_ping_hangs : Host unit :=
  host [(["npm"; "ping"], Hangs)] docs None "v5.12.0".

(** Node at the threshold of the npm check. *)
Definition host_node6 : Host unit := host healthy docs None "6.0.0".

(** Nobody is logged in. *)
Definition host_not_logged_in : Host unit :=
  host [(whoami, ko 40 EmptyString "npm ERR! code ENEEDAUTH")]
    docs None "v5.12.0".

(** alice is logged in and the package was never published. *)
Definition host_unpublished : Host unit :=
  host ((ls_collaborators, ko 60 EmptyString "npm ERR! code E404") :: healthy)
    docs None "v5.12.0".

Definition ls_remote : list string := ["git"; "ls-remote"; "origin"; "HEAD"].

(** The remote cannot be reached, or does not answer. *)
Definition host_remote_down : Host unit :=
  host [(ls_remote, ko 90 EmptyString "fatal: unable to access origin")]
    docs None "v5.12.0".

Definition host_remote_hangs : Host unit :=
  host [(ls_remote, Hangs)] docs None "v5.12.0".

(** What [npm version --json] prints, reduced to the entry that is read. *)
Definition doc_npm_3_8 : string :=
  "{" ++ quoted "npm" ++ ":" ++ quoted "3.8.6" ++ "}".

(** Node 6 with an npm that the range excludes. *)
Definition host_old_npm : Host unit :=
  host [(["npm"; "version"; "--json"], ok 25 doc_npm_3_8)]
    [(doc_npm_3_8, VObj [("npm", VStr "3.8.6")])] None "v6.2.0".

(** The fetch fails; the tag is free. *)
Definition host_fetch_fails : Host unit :=
  host [(["git"; "fetch"], ko 70 EmptyString "fatal: no remote");
        (rev_parse "v1.2.4", ko 5 EmptyString EmptyString)]
    docs None "v5.12.0".

Definition host_node_5_12_0 : Host unit := host healthy docs None "v5.12.0".

(** The closure after "Validate version" stored a version. *)
Definition with_version (v : string) : state unit :=
  {| world := tt; newVersion := Some v; tagPrefix := "v" |}.

End Scenario.

(* ===================================================================== *)
(** ** Promise combinators: basic facts *)
(* ===================================================================== *)

Section PromiseFacts.
Context {W : Type}.

Lemma after_zero {A} (x : @settle W A) : after 0 x = x.
Proof. destruct x; reflexivity. Qed.

Lemma after_after {A} (t t' : N) (x : @settle W A) :
  after t (after t' x) = after (t + t') x.
Proof. destruct x; simpl; [rewrite N.add_assoc|]; reflexivity. Qed.

Lemma final_state_after {A} (t : N) (x : @settle W A) :
  final_state (after t x) = final_state x.
Proof. destruct x; reflexivity. Qed.

Lemma then2_resolved {A B} (p : async W A) f (g : error -> async W B) s t a s' :
  p s = Settled t (Resolved a) s' -> then2 p f g s = after t (f a s').
Proof. intros E. unfold then2. rewrite E. reflexivity. Qed.

Lemma then2_rejected {A B} (p : async W A) (f : A -> async W B) g s t e s' :
  p s = Settled t (Rejected e) s' -> then2 p f g s = after t (g e s').
Proof. intros E. unfold then2. rewrite E. reflexivity. Qed.

Lemma then2_pending {A B} (p : async W A) (f : A -> async W B) g s s' :
  p s = Pending s' -> then2 p f g s = Pending s'.
Proof. intros E. unfold then2. rewrite E. reflexivity. Qed.

(** A chain whose rejection handler resolves and is attached after the
    fulfilment handler never rejects, whatever the fulfilment handler
    does. *)
Lemma catch_all_never_rejects {A} (p : async W A) (a : A) s t e s' :
  catch_ p (fun _ => resolve a) s <> Settled t (Rejected e) s'.
Proof.
  unfold catch_, then2, resolve.
  destruct (p s) as [t0 [x|e0] s0|s0]; simpl; discriminate.
Qed.

(** Frame properties of the combinators. *)
Lemma keeps_newVersion_then2 {A B} (p : async W A) (f : A -> async W B) g :
  keeps_newVersion p -> (forall a, keeps_newVersion (f a)) ->
  (forall e, keeps_newVersion (g e)) -> keeps_newVersion (then2 p f g).
Proof.
  intros Hp Hf Hg s. unfold then2. specialize (Hp s).
  destruct (p s) as [t [a|e] s'|s']; simpl in *; trivial;
    rewrite final_state_after, <- Hp; [apply Hf | apply Hg].
Qed.

Lemma keeps_tagPrefix_then2 {A B} (p : async W A) (f : A -> async W B) g :
  keeps_tagPrefix p -> (forall a, keeps_tagPrefix (f a)) ->
  (forall e, keeps_tagPrefix (g e)) -> keeps_tagPrefix (then2 p f g).
Proof.
  intros Hp Hf Hg s. unfold then2. specialize (Hp s).
  destruct (p s) as [t [a|e] s'|s']; simpl in *; trivial;
    rewrite final_state_after, <- Hp; [apply Hf | apply Hg].
Qed.

Lemma keeps_newVersion_resolve {A} (a : A) : keeps_newVersion (W:=W) (resolve a).
Proof. intros s. reflexivity. Qed.

Lemma keeps_newVersion_throw {A} e : keeps_newVersion (W:=W) (A:=A) (throw e).
Proof. intros s. reflexivity. Qed.

Lemma keeps_tagPrefix_resolve {A} (a : A) : keeps_tagPrefix (W:=W) (resolve a).
Proof. intros s. reflexivity. Qed.

Lemma keeps_tagPrefix_throw {A} e : keeps_tagPrefix (W:=W) (A:=A) (throw e).
Proof. intros s. reflexivity. Qed.

Lemma keeps_newVersion_pTimeout {A} (p : async W A) ms msg :
  keeps_newVersion p -> keeps_newVersion (pTimeout p ms msg).
Proof.
  intros Hp s. unfold pTimeout. specialize (Hp s).
  destruct (p s) as [t r s'|s']; simpl in *; trivial.
  destruct (t <? ms)%N; simpl; trivial.
Qed.

Lemma keeps_tagPrefix_pTimeout {A} (p : async W A) ms msg :
  keeps_tagPrefix p -> keeps_tagPrefix (pTimeout p ms msg).
Proof.
  intros Hp s. unfold pTimeout. specialize (Hp s).
  destruct (p s) as [t r s'|s']; simpl in *; trivial.
  destruct (t <? ms)%N; simpl; trivial.
Qed.

Lemma keeps_newVersion_get : keeps_newVersion (W:=W) get_newVersion.
Proof. intros s. reflexivity. Qed.

Lemma keeps_tagPrefix_get : keeps_tagPrefix (W:=W) get_newVersion.
Proof. intros s. reflexivity. Qed.

Lemma keeps_newVersion_set_tagPrefix v : keeps_newVersion (W:=W) (set_tagPrefix v).
Proof. intros s. reflexivity. Qed.

Lemma keeps_tagPrefix_set_newVersion v : keeps_tagPrefix (W:=W) (set_newVersion v).
Proof. intros s. reflexivity. Qed.

Context {H : Host W}.

Lemma keeps_newVersion_execa argv : keeps_newVersion (execa argv).
Proof.
  intros s. unfold execa.
  destruct (spawn argv (world s)) as [t [e|o] w'|]; reflexivity.
Qed.

Lemma keeps_tagPrefix_execa argv : keeps_tagPrefix (execa argv).
Proof.
  intros s. unfold execa.
  destruct (spawn argv (world s)) as [t [e|o] w'|]; reflexivity.
Qed.

Lemma keeps_newVersion_execa_stdout argv : keeps_newVersion (execa_stdout argv).
Proof.
  apply keeps_newVersion_then2;
    auto using keeps_newVersion_execa, keeps_newVersion_resolve,
      keeps_newVersion_throw.
Qed.

Lemma keeps_tagPrefix_execa_stdout argv : keeps_tagPrefix (execa_stdout argv).
Proof.
  apply keeps_tagPrefix_then2;
    auto using keeps_tagPrefix_execa, keeps_tagPrefix_resolve,
      keeps_tagPrefix_throw.
Qed.

(** [execa.stdout] in terms of the command's exit. *)
Lemma execa_stdout_eq argv s :
  execa_stdout argv s =
  match spawn argv (world s) with
  | Exits t (inr o) w' =>
      Settled t (Resolved (o_stdout o))
        {| world := w'; newVersion := newVersion s; tagPrefix := tagPrefix s |}
  | Exits t (inl e) w' =>
      Settled t (Rejected (ExecError e))
        {| world := w'; newVersion := newVersion s; tagPrefix := tagPrefix s |}
  | Hangs => Pending s
  end.
Proof.
  unfold execa_stdout, then_, then2, execa.
  destruct (spawn argv (world s)) as [t [e|o] w'|]; simpl;
    rewrite ?N.add_0_r; reflexivity.
Qed.

End PromiseFacts.

Create HintDb frame discriminated.
#[export] Hint Resolve
  keeps_newVersion_then2 keeps_newVersion_resolve keeps_newVersion_throw
  keeps_newVersion_pTimeout keeps_newVersion_get keeps_newVersion_set_tagPrefix
  keeps_newVersion_execa keeps_newVersion_execa_stdout
  keeps_tagPrefix_then2 keeps_tagPrefix_resolve keeps_tagPrefix_throw
  keeps_tagPrefix_pTimeout keeps_tagPrefix_get keeps_tagPrefix_set_newVersion
  keeps_tagPrefix_execa keeps_tagPrefix_execa_stdout : frame.

(* ===================================================================== *)
(** ** Strings *)
(* ===================================================================== *)

Lemma prefix_app (x rest : string) : String.prefix x (x ++ rest) = true.
Proof.
  induction x as [|c x IH]; simpl.
  - destruct rest; reflexivity.
  - destruct (ascii_dec c c) as [_|N]; [exact IH | now elim N].
Qed.

(** A text occurs in whatever is built around it. *)
Lemma str_includes_app (x before rest : string) :
  str_includes x (before ++ x ++ rest) = true.
Proof.
  induction before as [|c before IH]; simpl.
  - pose proof (prefix_app x rest) as P.
    destruct (x ++ rest); cbn [str_includes]; rewrite P; reflexivity.
  - rewrite IH. apply orb_true_r.
Qed.

Lemma str_includes_skip (x before rest : string) :
  str_includes x rest = true -> str_includes x (before ++ rest) = true.
Proof.
  intros E. induction before as [|c before IH]; simpl; trivial.
  rewrite IH. apply orb_true_r.
Qed.

(* ===================================================================== *)
(** ** The runner: basic facts *)
(* ===================================================================== *)

Section RunnerFacts.
Context {W : Type}.

Lemma run_cons (c : check W) (rest : list (check W)) s :
  run (c :: rest) s =
  if excluded c then
    let (report, o) := run rest s in ((title c, Skipped) :: report, o)
  else
    match task c s with
    | Settled _ (Resolved _) s' =>
        let (report, o) := run rest s' in ((title c, Completed) :: report, o)
    | Settled _ (Rejected e) _ =>
        ([(title c, Failed (message e))], Some (Failure (title c) (message e)))
    | Pending _ => ([(title c, Unsettled)], None)
    end.
Proof. reflexivity. Qed.

(** Running a list in two parts. *)
Lemma run_app (l1 l2 : list (check W)) s :
  run (l1 ++ l2) s =
  match run l1 s with
  | (report, Some (Success s1)) =>
      let (report2, o) := run l2 s1 in ((report ++ report2)%list, o)
  | other => other
  end.
Proof.
  revert s. induction l1 as [|c l1 IH]; intros s; simpl.
  - destruct (run l2 s); reflexivity.
  - destruct (excluded c).
    + rewrite IH. destruct (run l1 s) as [rep [[s1|? ?]|]]; trivial.
      destruct (run l2 s1); reflexivity.
    + destruct (task c s) as [t [a|e] s'|s']; trivial.
      rewrite IH. destruct (run l1 s') as [rep [[s1|? ?]|]]; trivial.
      destruct (run l2 s1); reflexivity.
Qed.

(** The report has one line per check when the run succeeds. *)
Lemma run_success_length (l : list (check W)) s report s1 :
  run l s = (report, Some (Success s1)) -> length report = length l.
Proof.
  revert s report. induction l as [|c l IH]; intros s report; simpl.
  - intros E. inversion E. reflexivity.
  - destruct (excluded c).
    + destruct (run l s) as [rep o] eqn:E. intros E'. inversion E'; subst.
      simpl. f_equal. eapply IH. exact E.
    + destruct (task c s) as [t [a|e] s'|s']; try discriminate.
      destruct (run l s') as [rep o] eqn:E. intros E'. inversion E'; subst.
      simpl. f_equal. eapply IH. exact E.
Qed.

(** A variable that every action of a list leaves alone has, after a
    successful run, the value it had before. *)
Lemma run_keeps_newVersion (l : list (check W)) :
  Forall (fun c => keeps_newVersion (task c)) l ->
  forall s report s1,
    run l s = (report, Some (Success s1)) -> newVersion s1 = newVersion s.
Proof.
  induction 1 as [|c l Hc Hl IH]; intros s report s1; simpl.
  - intros E. inversion E. reflexivity.
  - destruct (excluded c).
    + destruct (run l s) as [rep o] eqn:E. intros E'. inversion E'; subst.
      eapply IH. exact E.
    + specialize (Hc s).
      destruct (task c s) as [t [a|e] s'|s']; try discriminate.
      destruct (run l s') as [rep o] eqn:E. intros E'. inversion E'; subst.
      simpl in Hc. rewrite <- Hc. eapply IH. exact E.
Qed.

Lemma run_keeps_tagPrefix (l : list (check W)) :
  Forall (fun c => keeps_tagPrefix (task c)) l ->
  forall s report s1,
    run l s = (report, Some (Success s1)) -> tagPrefix s1 = tagPrefix s.
Proof.
  induction 1 as [|c l Hc Hl IH]; intros s report s1; simpl.
  - intros E. inversion E. reflexivity.
  - destruct (excluded c).
    + destruct (run l s) as [rep o] eqn:E. intros E'. inversion E'; subst.
      eapply IH. exact E.
    + specialize (Hc s).
      destruct (task c s) as [t [a|e] s'|s']; try discriminate.
      destruct (run l s') as [rep o] eqn:E. intros E'. inversion E'; subst.
      simpl in Hc. rewrite <- Hc. eapply IH. exact E.
Qed.

(** A check that was not excluded and is followed by a successful outcome
    has completed. *)
Lemma run_success_status (l : list (check W)) s report s1 :
  run l s = (report, Some (Success s1)) ->
  forall c, In c l -> excluded c = false -> In (title c, Completed) report.
Proof.
  revert s report. induction l as [|c l IH]; intros s report; simpl.
  - intros _ c [].
  - destruct (excluded c) eqn:X.
    + destruct (run l s) as [rep o] eqn:E. intros E'. inversion E'; subst.
      intros c' [->|Hin] Hx; [congruence|]. right. eapply IH; eauto.
    + destruct (task c s) as [t [a|e] s'|s']; try discriminate.
      destruct (run l s') as [rep o] eqn:E. intros E'. inversion E'; subst.
      intros c' [->|Hin] Hx; [left; reflexivity|]. right. eapply IH; eauto.
Qed.

End RunnerFacts.

(* ===================================================================== *)
(** ** Construction of the pipeline *)
(* ===================================================================== *)

Section Construction.
Context {W : Type} {V : VersionApi} {H : Host W}.

Lemma object_cases (v : jsval) :
  typeof v = "object" -> v <> VNull ->
  (exists items, v = VArr items) \/ (exists fields, v = VObj fields).
Proof.
  destruct v; simpl; intros T N; try discriminate; try (now elim N); eauto.
Qed.

(** C10.  The exported function is partial in the package descriptor.
    When [pkg.publishConfig] is [null], line 10 throws a TypeError (its
    type tag is "object", yet [registry] cannot be read from it), so no
    pipeline is built and no check runs.  When [pkg.publishConfig] is
    [undefined] or an object other than [null], the checks are built, and
    [isExternalRegistry] is true exactly when [publishConfig.registry] is a
    string. *)
Theorem construction_partial_in_publishConfig
    (input : string) (pkg : package) (opts : options) :
  (publishConfig pkg = VNull ->
     typeof (publishConfig pkg) = "object"
     /\ get_prop (publishConfig pkg) "registry" = None
     /\ (exists msg, prerequisite (W:=W) input pkg opts = inl (TypeError msg))
     /\ (forall w : W, exists msg,
           release_checks input pkg opts w = inl (TypeError msg)))
  /\ (publishConfig pkg = VUndefined
      \/ (typeof (publishConfig pkg) = "object" /\ publishConfig pkg <> VNull) ->
      exists external,
        isExternalRegistry pkg = Some external
        /\ prerequisite (W:=W) input pkg opts
           = inr (tasks input pkg opts external)
        /\ (external = true <->
            exists r, get_prop (publishConfig pkg) "registry" = Some (VStr r))).
Proof.
  split.
  - intros E. unfold release_checks, prerequisite, isExternalRegistry.
    rewrite E. simpl. repeat split; eauto.
  - unfold prerequisite, isExternalRegistry.
    intros [E | [T N]].
    + rewrite E. simpl. exists false. repeat split; try discriminate.
      intros [r R]. discriminate.
    + destruct (object_cases _ T N) as [[items E] | [fields E]]; rewrite E; simpl.
      * exists false. repeat split; try discriminate.
        intros [r R]. discriminate.
      * destruct (assoc "registry" fields) as [r|] eqn:A.
        -- exists (typeof r =? "string"). repeat split.
           ++ intros T'. apply String.eqb_eq in T'.
              destruct r; try discriminate. eauto.
           ++ intros [r' R]. inversion R. reflexivity.
        -- exists false. repeat split; try discriminate.
           intros [r R]. discriminate.
Qed.

End Construction.

(* ===================================================================== *)
(** ** The checks one by one *)
(* ===================================================================== *)

Section CheckPolicies.
Context {W : Type} {V : VersionApi} {H : Host W}.

Lemma ping_task_eq (s : state W) :
  ping_task s =
  match spawn ["npm"; "ping"] (world s) with
  | Exits t r w' =>
      if (t <? 15000)%N then
        Settled t
          match r with
          | inr o => Resolved (o_stdout o)
          | inl _ => Rejected (Error msg_ping_failed)
          end
          {| world := w'; newVersion := newVersion s; tagPrefix := tagPrefix s |}
      else Settled 15000 (Rejected (TimeoutError msg_ping_timeout)) s
  | Hangs => Settled 15000 (Rejected (TimeoutError msg_ping_timeout)) s
  end.
Proof.
  unfold ping_task, pTimeout, catch_, then2. rewrite execa_stdout_eq.
  destruct (spawn ["npm"; "ping"] (world s)) as [t [e|o] w'|]; simpl;
    rewrite ?N.add_0_r; reflexivity.
Qed.

Lemma discard_eq {A} (p : async W A) (s : state W) :
  discard p s =
  match p s with
  | Settled t (Resolved _) s' => Settled t (Resolved tt) s'
  | Settled t (Rejected e) s' => Settled t (Rejected e) s'
  | Pending s' => Pending s'
  end.
Proof.
  unfold discard, then_, then2.
  destruct (p s) as [t [a|e] s'|s']; simpl; rewrite ?N.add_0_r; reflexivity.
Qed.

(** C7.  The check "Ping npm registry" is excluded exactly when the
    package is private or an external registry is configured.  When it
    runs, it always settles within the deadline of 15000 milliseconds.  A
    command that fails before the deadline makes the check fail with
    "Connection to npm registry failed"; a command that has not exited at
    the deadline makes it fail with "Connection to npm registry timed
    out".  The two messages differ, and both reach the runner as an
    ordinary failure of the check. *)
Theorem ping_registry_policy (pkg : package) (external : bool) (s : state W) :
  isExternalRegistry pkg = Some external ->
  let c := ping_registry pkg external in
  let late :=
    spawn ["npm"; "ping"] (world s) = Hangs
    \/ exists t r w', spawn ["npm"; "ping"] (world s) = Exits t r w'
                      /\ (15000 <= t)%N in
  (excluded c = true <-> private pkg = true \/ external = true)
  /\ (exists t r s', (t <= 15000)%N /\ task c s = Settled t r s')
  /\ (forall t e w',
        spawn ["npm"; "ping"] (world s) = Exits t (inl e) w' ->
        (t < 15000)%N ->
        fails_with (task c) s "Connection to npm registry failed"
        /\ (excluded c = false ->
            snd (run [c] s)
            = Some (Failure "Ping npm registry"
                      "Connection to npm registry failed")))
  /\ (late ->
        fails_with (task c) s "Connection to npm registry timed out"
        /\ (excluded c = false ->
            snd (run [c] s)
            = Some (Failure "Ping npm registry"
                      "Connection to npm registry timed out")))
  /\ (forall t o w',
        spawn ["npm"; "ping"] (world s) = Exits t (inr o) w' ->
        (t < 15000)%N -> succeeds (task c) s)
  /\ "Connection to npm registry failed"
     <> "Connection to npm registry timed out".
Proof.
  intros _ c late. subst c late.
  assert (T : task (ping_registry pkg external) s = discard ping_task s)
    by reflexivity.
  rewrite discard_eq, ping_task_eq in T.
  assert (X : excluded (ping_registry pkg external) = private pkg || external).
  { unfold excluded, gate_skip, gate_enabled. simpl. apply orb_false_r. }
  split; [rewrite X; apply orb_true_iff|].
  split; [|split; [|split; [|split]]].
  - rewrite T. destruct (spawn ["npm"; "ping"] (world s)) as [t r w'|].
    + destruct (N.ltb_spec t 15000).
      * destruct r; eexists _, _, _; (split; [|reflexivity]); lia.
      * eexists _, _, _; (split; [|reflexivity]); lia.
    + eexists _, _, _; (split; [|reflexivity]); lia.
  - intros t e w' E L. apply N.ltb_lt in L. split.
    + unfold fails_with. rewrite T, E, L. eexists _, _, _. split; reflexivity.
    + intros X'. rewrite run_cons, X', T, E, L. reflexivity.
  - intros L. split.
    + unfold fails_with. rewrite T.
      destruct L as [E | (t & r & w' & E & L)]; rewrite E.
      * eexists _, _, _. split; reflexivity.
      * apply N.ltb_ge in L. rewrite L. eexists _, _, _. split; reflexivity.
    + intros X'. rewrite run_cons, X', T.
      destruct L as [E | (t & r & w' & E & L)]; rewrite E.
      * reflexivity.
      * apply N.ltb_ge in L. rewrite L. reflexivity.
  - intros t o w' E L. apply N.ltb_lt in L.
    unfold succeeds. rewrite T, E, L. eexists _, _, _. reflexivity.
  - discriminate.
Qed.

(** C3.  The check "Validate version" is never excluded.  An input that
    the validity predicate rejects makes it fail with the message that
    enumerates the increment keywords, [newVersion] being left as it was.
    Otherwise [newVersion] is computed from the current version and the
    input and stored, and the check passes when [isVersionGreater] holds
    between the current version and it, and otherwise fails with a message
    that names both versions. *)
Theorem validate_version_policy (input : string) (pkg : package) (s : state W) :
  let c : check W := validate_version input pkg in
  let nv := getNewVersion (version pkg) input in
  let s' := {| world := world s; newVersion := Some nv;
               tagPrefix := tagPrefix s |} in
  excluded c = false
  /\ (isValidVersionInput input = false ->
      task c s =
      Settled 0
        (Rejected (Error ("Version should be either "
                          ++ join ", " SEMVER_INCREMENTS
                          ++ ", or a valid semver version."))) s)
  /\ (isValidVersionInput input = true ->
      isVersionGreater (version pkg) nv = true ->
      task c s = Settled 0 (Resolved tt) s')
  /\ (isValidVersionInput input = true ->
      isVersionGreater (version pkg) nv = false ->
      exists msg,
        task c s = Settled 0 (Rejected (Error msg)) s'
        /\ str_includes nv msg = true
        /\ str_includes (version pkg) msg = true).
Proof.
  simpl. unfold validate_task. repeat split.
  - intros E. rewrite E. reflexivity.
  - intros E G. rewrite E. simpl. unfold then_, then2. simpl. rewrite G.
    reflexivity.
  - intros E G. rewrite E. simpl. unfold then_, then2. simpl. rewrite G.
    simpl. eexists. split; [reflexivity|]. unfold msg_not_higher. split.
    + apply (str_includes_app _ "New version `").
    + do 3 apply str_includes_skip.
      apply (str_includes_app _ EmptyString).
Qed.


Lemma prerelease_task_eq (pkg : package) (opts : options) (s : state W) :
  prerelease_task pkg opts s =
  if negb (private pkg) && isPrereleaseVersion (newVersion s) && no_tag opts
  then Settled 0 (Rejected (Error msg_need_tag)) s
  else Settled 0 (Resolved tt) s.
Proof.
  unfold prerelease_task, then_, then2, get_newVersion.
  destruct (negb (private pkg) && isPrereleaseVersion (newVersion s)
            && no_tag opts); reflexivity.
Qed.

(** C4, as the code has it.  The check "Check for pre-release version" is
    excluded exactly when publishing was not requested; it has no skip
    gate, so it also runs for a private package, where its action passes.
    When it runs, it fails, with the message that asks for --tag, exactly
    when the package is not private, [newVersion] is a pre-release version
    and no dist-tag was given. *)
Theorem prerelease_check_policy (pkg : package) (opts : options) (s : state W) :
  let c : check W := check_prerelease pkg opts in
  (excluded c = negb (publish opts))
  /\ ((exists msg, fails_with (task c) s msg)
      <-> (private pkg = false
           /\ isPrereleaseVersion (newVersion s) = true
           /\ no_tag opts = true))
  /\ (forall msg, fails_with (task c) s msg ->
      msg = msg_need_tag /\ str_includes "--tag" msg = true)
  /\ (private pkg = true -> task c s = Settled 0 (Resolved tt) s).
Proof.
  intros c. subst c. cbn [task check_prerelease].
  unfold fails_with. rewrite prerelease_task_eq.
  split; [reflexivity|].
  assert (Hb : negb (private pkg) && isPrereleaseVersion (newVersion s)
               && no_tag opts = true
               <-> private pkg = false
                   /\ isPrereleaseVersion (newVersion s) = true
                   /\ no_tag opts = true).
  { rewrite !andb_true_iff, negb_true_iff. tauto. }
  destruct (negb (private pkg) && isPrereleaseVersion (newVersion s)
            && no_tag opts) eqn:B.
  - split; [split|split].
    + intros _. apply Hb. reflexivity.
    + intros _. eexists _, _, _, _. split; reflexivity.
    + intros msg (t & e & s' & E & M). inversion E; subst. split; reflexivity.
    + intros P. destruct Hb as [Hb _]. destruct (Hb eq_refl) as [P' _].
      congruence.
  - split; [split|split].
    + intros (m & t & e & s' & E & M). discriminate.
    + intros X. apply Hb in X. discriminate.
    + intros msg (t & e & s' & E & M). discriminate.
    + reflexivity.
Qed.

End CheckPolicies.

(* ===================================================================== *)
(** ** Authentication and write access *)
(* ===================================================================== *)

Section WriteAccess.
Context {W : Type} {V : VersionApi} {H : Host W}.

(** The [catch] of line 39 sits after the handler of lines 32 to 38, so it
    also receives what that handler throws: the step cannot fail. *)
Lemma collaborators_step_never_rejects (pkg : package) username (s : state W) t e s' :
  collaborators_step pkg username s <> Settled t (Rejected e) s'.
Proof. apply catch_all_never_rejects. Qed.

Lemma run_single_fails (c : check W) (s : state W) msg :
  excluded c = false -> fails_with (task c) s msg ->
  run [c] s = ([(title c, Failed msg)], Some (Failure (title c) msg)).
Proof.
  intros X (t & e & s' & E & M). rewrite run_cons, X, E, M. reflexivity.
Qed.

Lemma run_single_succeeds (c : check W) (s : state W) t a s' :
  excluded c = false -> task c s = Settled t (Resolved a) s' ->
  run [c] s = ([(title c, Completed)], Some (Success s')).
Proof. intros X E. rewrite run_cons, X, E. reflexivity. Qed.

(** Once [npm whoami] has answered, the check "Verify user is
    authenticated" does not fail, whatever the collaborators are. *)
Lemma verify_user_passes_after_whoami (pkg : package) external (s : state W)
    t o w' :
  spawn ["npm"; "whoami"] (world s) = Exits t (inr o) w' ->
  forall t' e s', task (verify_user pkg external) s <> Settled t' (Rejected e) s'.
Proof.
  intros E t' e s'. cbn [task verify_user]. unfold then_, whoami_step, catch_.
  unfold then2 at 1. unfold then2 at 1. rewrite execa_stdout_eq, E. simpl.
  destruct (collaborators_step pkg (o_stdout o) _) as [t1 [a|e1] s1|s1] eqn:C;
    simpl; try discriminate.
  exfalso. eapply collaborators_step_never_rejects. exact C.
Qed.

(** C1, on the code.  Once [npm whoami] has answered with a user name and
    the collaborators lookup has answered with a document in which that
    user does not occur, the handler of lines 32 to 38 throws the
    write-permission error; the [catch] of line 39 absorbs it, and the
    check "Verify user is authenticated" passes. *)
Theorem write_permission_failure_is_absorbed
    (pkg : package) (external : bool) (s : state W)
    t o w' t2 o2 w2 fields :
  spawn ["npm"; "whoami"] (world s) = Exits t (inr o) w' ->
  spawn ["npm"; "access"; "ls-collaborators"; name pkg] w'
  = Exits t2 (inr o2) w2 ->
  JSON_parse (o_stdout o2) = Some (VObj fields) ->
  assoc (o_stdout o) fields = None ->
  let s2 := {| world := w2; newVersion := newVersion s;
               tagPrefix := tagPrefix s |} in
  check_write_access (o_stdout o) (o_stdout o2) s2
  = Settled 0
      (Rejected
         (Error "You do not have write permissions required to publish this package."))
      s2
  /\ task (verify_user pkg external) s = Settled (t + t2) (Resolved tt) s2
  /\ (excluded (verify_user pkg external) = false ->
      run [verify_user pkg external] s
      = ([("Verify user is authenticated", Completed)], Some (Success s2))).
Proof.
  intros E1 E2 P A s2.
  assert (C : check_write_access (o_stdout o) (o_stdout o2) s2
              = Settled 0 (Rejected (Error msg_no_write)) s2).
  { unfold check_write_access. rewrite P. simpl. rewrite A. reflexivity. }
  assert (T : task (verify_user pkg external) s
              = Settled (t + t2) (Resolved tt) s2).
  { cbn [task verify_user]. unfold then_, whoami_step, catch_.
    unfold then2 at 1. unfold then2 at 1. rewrite execa_stdout_eq, E1.
    cbn [resolve after]. rewrite N.add_0_r.
    unfold collaborators_step, catch_, then_.
    unfold then2 at 1. unfold then2 at 1. rewrite execa_stdout_eq.
    cbn [world]. rewrite E2. cbn [after newVersion tagPrefix].
    fold s2. rewrite C. simpl. rewrite !N.add_0_r. reflexivity. }
  split; [exact C|]. split; [exact T|].
  intros X. apply (run_single_succeeds _ _ _ _ _ X T).
Qed.

End WriteAccess.

(* ===================================================================== *)
(** ** The tag check *)
(* ===================================================================== *)

Lemma append_assoc (a b c : string) : (a ++ b) ++ c = a ++ b ++ c.
Proof. induction a as [|x a IH]; simpl; [|rewrite IH]; reflexivity. Qed.

Lemma truthy_str_true (x : string) : x <> EmptyString -> truthy_str x = true.
Proof. destruct x; [intros N; now elim N | reflexivity]. Qed.

Section TagCheck.
Context {W : Type} {V : VersionApi} {H : Host W}.
Variable opts : options.

(** Lines 83 to 95 in terms of the two commands.  A failure of either is
    absorbed by the second handler of line 94. *)
Lemma resolve_tag_prefix_eq (s : state W) :
  resolve_tag_prefix opts s =
  match spawn ["git"; "fetch"] (world s) with
  | Exits t0 (inr _) w0 =>
      match spawn (config_argv opts) w0 with
      | Exits t1 (inr o) w1 =>
          Settled (t0 + t1) (Resolved tt)
            {| world := w1; newVersion := newVersion s;
               tagPrefix := o_stdout o |}
      | Exits t1 (inl _) w1 =>
          Settled (t0 + t1) (Resolved tt)
            {| world := w1; newVersion := newVersion s;
               tagPrefix := tagPrefix s |}
      | Hangs =>
          Pending {| world := w0; newVersion := newVersion s;
                     tagPrefix := tagPrefix s |}
      end
  | Exits t0 (inl _) w0 =>
      Settled t0 (Resolved tt)
        {| world := w0; newVersion := newVersion s; tagPrefix := tagPrefix s |}
  | Hangs => Pending s
  end.
Proof.
  unfold resolve_tag_prefix, then_. unfold then2 at 1. unfold then2 at 1.
  unfold execa at 1, config_argv.
  destruct (spawn ["git"; "fetch"] (world s)) as [t0 [e0|o0] w0|]; simpl;
    rewrite ?N.add_0_r; trivial.
  destruct (yarn opts); rewrite execa_stdout_eq; simpl;
    match goal with
    | |- context [spawn ?argv w0] =>
        destruct (spawn argv w0) as [t1 [e1|o1] w1|]
    end; simpl; rewrite ?N.add_0_r; reflexivity.
Qed.

(** Lines 96 to 110 in terms of the lookup command. *)
Lemma lookup_phase_eq (s : state W) :
  lookup_phase s =
  match spawn (rev_parse_argv s) (world s) with
  | Exits t (inr o) w' =>
      Settled t
        (if truthy_str (o_stdout o)
         then Rejected (Error (msg_tag_exists (tagPrefix s) (newVersion s)))
         else Resolved tt)
        {| world := w'; newVersion := newVersion s; tagPrefix := tagPrefix s |}
  | Exits t (inl e) w' =>
      Settled t
        (if negb (e_stdout e =? EmptyString) || negb (e_stderr e =? EmptyString)
         then Rejected (ExecError e)
         else Resolved tt)
        {| world := w'; newVersion := newVersion s; tagPrefix := tagPrefix s |}
  | Hangs => Pending s
  end.
Proof.
  unfold lookup_phase, then2, tag_lookup. rewrite execa_stdout_eq.
  destruct (spawn (rev_parse_argv s) (world s)) as [t [e|o] w'|]; simpl; trivial.
  - unfold on_lookup_failed. simpl.
    destruct (negb (e_stdout e =? EmptyString) || negb (e_stderr e =? EmptyString));
      simpl; rewrite N.add_0_r; reflexivity.
  - unfold on_tag_found. simpl.
    destruct (truthy_str (o_stdout o)); simpl; rewrite N.add_0_r; reflexivity.
Qed.

(** Once the prefix is resolved, the check goes on with the lookup. *)
Lemma tag_task_proceeds (s : state W) t a s1 :
  resolve_tag_prefix opts s = Settled t (Resolved a) s1 ->
  tag_task opts s = after t (lookup_phase s1).
Proof.
  intros E. unfold tag_task, lookup_phase, then_.
  unfold then2 at 1. unfold then2 at 1. rewrite E.
  unfold then2.
  destruct (tag_lookup s1) as [t1 [x|e] s2|s2]; simpl; trivial;
    rewrite after_after; reflexivity.
Qed.

Lemma resolve_tag_prefix_keeps_newVersion : keeps_newVersion (resolve_tag_prefix opts).
Proof.
  intros s. rewrite resolve_tag_prefix_eq.
  destruct (spawn ["git"; "fetch"] (world s)) as [t0 [e0|o0] w0|]; trivial.
  destruct (spawn (config_argv opts) w0) as [t1 [e1|o1] w1|]; reflexivity.
Qed.

(** C2.  In the check "Check git tag existence", once the tag prefix is
    resolved, the lookup of the tag [tagPrefix ++ newVersion] decides:
    a lookup that succeeds with some output makes the check fail with the
    message that the tag already exists, naming that tag; a lookup that
    fails with nothing on either stream makes the check pass; a lookup that
    fails with output on a stream makes the check fail with that very
    error. *)
Theorem tag_lookup_policy (s : state W) t s1 :
  resolve_tag_prefix opts s = Settled t (Resolved tt) s1 ->
  let c : check W := check_git_tag opts in
  let tagname := tagPrefix s1 ++ show_version (newVersion s) in
  let lookup :=
    spawn ["git"; "rev-parse"; "--quiet"; "--verify"; "refs/tags/" ++ tagname]
      (world s1) in
  excluded c = false
  /\ (forall t' o w',
        lookup = Exits t' (inr o) w' -> o_stdout o <> EmptyString ->
        fails_with (task c) s ("Git tag `" ++ tagname ++ "` already exists.")
        /\ snd (run [c] s)
           = Some (Failure "Check git tag existence"
                     ("Git tag `" ++ tagname ++ "` already exists.")))
  /\ (forall t' e w',
        lookup = Exits t' (inl e) w' ->
        e_stdout e = EmptyString -> e_stderr e = EmptyString ->
        succeeds (task c) s
        /\ exists s2, snd (run [c] s) = Some (Success s2))
  /\ (forall t' e w',
        lookup = Exits t' (inl e) w' ->
        e_stdout e <> EmptyString \/ e_stderr e <> EmptyString ->
        (exists t2 s2, task c s = Settled t2 (Rejected (ExecError e)) s2)
        /\ snd (run [c] s)
           = Some (Failure "Check git tag existence" (e_message e))).
Proof.
  intros E c tagname lookup.
  assert (X : excluded c = false) by reflexivity.
  assert (NV : newVersion s1 = newVersion s).
  { pose proof (resolve_tag_prefix_keeps_newVersion s) as K.
    rewrite E in K. exact K. }
  pose proof (tag_task_proceeds s t tt s1 E) as T.
  rewrite lookup_phase_eq in T. unfold rev_parse_argv in T.
  rewrite NV in T. fold tagname in T. fold lookup in T.
  change (tag_task opts s) with (task c s) in T.
  split; [exact X|]. split; [|split].
  - intros t' o w' L NE. rewrite L in T. rewrite (truthy_str_true _ NE) in T.
    simpl in T.
    assert (F : fails_with (task c) s
                  ("Git tag `" ++ tagname ++ "` already exists.")).
    { exists (t + t')%N. eexists _, _. split; [exact T|].
      simpl. unfold msg_tag_exists, tagname. rewrite append_assoc.
      reflexivity. }
    split; [exact F|]. rewrite (run_single_fails c s _ X F). reflexivity.
  - intros t' e w' L E1 E2. rewrite L, E1, E2 in T. simpl in T.
    split.
    + eexists _, _, _. exact T.
    + rewrite (run_single_succeeds c s _ _ _ X T). eexists. reflexivity.
  - intros t' e w' L NE. rewrite L in T.
    assert (B : negb (e_stdout e =? EmptyString)
                || negb (e_stderr e =? EmptyString) = true).
    { apply orb_true_iff. destruct NE as [NE|NE]; [left|right];
        apply negb_true_iff, String.eqb_neq; exact NE. }
    rewrite B in T. simpl in T. split.
    + eexists _, _. exact T.
    + assert (F : fails_with (task c) s (e_message e)).
      { eexists _, _, _. split; [exact T | reflexivity]. }
      rewrite (run_single_fails c s _ X F). reflexivity.
Qed.

End TagCheck.

(* ===================================================================== *)
(** ** Who writes the closure variables *)
(* ===================================================================== *)

Ltac frame_step :=
  first
    [ apply keeps_newVersion_then2 | apply keeps_tagPrefix_then2
    | apply keeps_newVersion_pTimeout | apply keeps_tagPrefix_pTimeout
    | apply keeps_newVersion_execa_stdout | apply keeps_tagPrefix_execa_stdout
    | apply keeps_newVersion_execa | apply keeps_tagPrefix_execa
    | apply keeps_newVersion_resolve | apply keeps_tagPrefix_resolve
    | apply keeps_newVersion_throw | apply keeps_tagPrefix_throw
    | apply keeps_newVersion_get | apply keeps_tagPrefix_get
    | apply keeps_newVersion_set_tagPrefix
    | apply keeps_tagPrefix_set_newVersion ].

Ltac frame := repeat (intros; cbv beta; frame_step).

Ltac frame_cases :=
  frame;
  repeat (intros;
          match goal with
          | |- context [match ?x with _ => _ end] => destruct x
          end; frame).

Section Frames.
Context {W : Type} {V : VersionApi} {H : Host W}.
Variable input : string.
Variable pkg : package.
Variable opts : options.
Variable external : bool.

Lemma ping_keeps_newVersion : keeps_newVersion (task (ping_registry pkg external)).
Proof. cbn [task ping_registry]. unfold discard, ping_task, then_, catch_. frame. Qed.

Lemma ping_keeps_tagPrefix : keeps_tagPrefix (task (ping_registry pkg external)).
Proof. cbn [task ping_registry]. unfold discard, ping_task, then_, catch_. frame. Qed.

Lemma check_write_access_keeps_newVersion username collaborators :
  keeps_newVersion (check_write_access (W:=W) username collaborators).
Proof.
  unfold check_write_access.
  destruct (JSON_parse collaborators) as [json|]; [|frame].
  destruct (get_prop json username) as [permissions|]; [|frame].
  destruct (negb (truthy permissions)); [frame|].
  destruct (includes permissions "write") as [[|]|]; simpl; frame.
Qed.

Lemma check_write_access_keeps_tagPrefix username collaborators :
  keeps_tagPrefix (check_write_access (W:=W) username collaborators).
Proof.
  unfold check_write_access.
  destruct (JSON_parse collaborators) as [json|]; [|frame].
  destruct (get_prop json username) as [permissions|]; [|frame].
  destruct (negb (truthy permissions)); [frame|].
  destruct (includes permissions "write") as [[|]|]; simpl; frame.
Qed.

Lemma verify_user_keeps_newVersion : keeps_newVersion (task (verify_user pkg external)).
Proof.
  cbn [task verify_user].
  unfold whoami_step, collaborators_step, then_, catch_. frame.
  apply check_write_access_keeps_newVersion.
Qed.

Lemma verify_user_keeps_tagPrefix : keeps_tagPrefix (task (verify_user pkg external)).
Proof.
  cbn [task verify_user].
  unfold whoami_step, collaborators_step, then_, catch_. frame.
  apply check_write_access_keeps_tagPrefix.
Qed.

Lemma git_remote_keeps_newVersion : keeps_newVersion (task (W:=W) check_git_remote).
Proof.
  cbn [task check_git_remote]. unfold discard, then_, catch_. frame_cases.
Qed.

Lemma git_remote_keeps_tagPrefix : keeps_tagPrefix (task (W:=W) check_git_remote).
Proof.
  cbn [task check_git_remote]. unfold discard, then_, catch_. frame_cases.
Qed.

Lemma validate_keeps_tagPrefix : keeps_tagPrefix (task (W:=W) (validate_version input pkg)).
Proof.
  cbn [task validate_version]. unfold validate_task.
  destruct (negb (isValidVersionInput input)); [frame|].
  cbv zeta. unfold then_. frame_cases.
Qed.

Lemma prerelease_keeps_newVersion :
  keeps_newVersion (task (W:=W) (check_prerelease pkg opts)).
Proof.
  cbn [task check_prerelease]. unfold prerelease_task, then_. frame_cases.
Qed.

Lemma prerelease_keeps_tagPrefix :
  keeps_tagPrefix (task (W:=W) (check_prerelease pkg opts)).
Proof.
  cbn [task check_prerelease]. unfold prerelease_task, then_. frame_cases.
Qed.

Lemma npm_version_keeps_newVersion : keeps_newVersion (task (W:=W) check_npm_version).
Proof.
  cbn [task check_npm_version]. unfold npm_version_task, then_. frame_cases.
Qed.

Lemma npm_version_keeps_tagPrefix : keeps_tagPrefix (task (W:=W) check_npm_version).
Proof.
  cbn [task check_npm_version]. unfold npm_version_task, then_. frame_cases.
Qed.

Lemma git_tag_keeps_newVersion : keeps_newVersion (task (W:=W) (check_git_tag opts)).
Proof.
  cbn [task check_git_tag]. unfold tag_task, then_.
  apply keeps_newVersion_then2; [apply keeps_newVersion_then2| |].
  - apply resolve_tag_prefix_keeps_newVersion.
  - intros _ s. apply keeps_newVersion_execa_stdout.
  - frame.
  - intros a s. unfold on_tag_found. destruct (truthy_str a); reflexivity.
  - intros e. unfold on_lookup_failed.
    destruct (not_empty_string (stdout_of e) || not_empty_string (stderr_of e));
      frame.
Qed.

(** The assignment of line 55 is the only one: a check that passes leaves
    the computed version in [newVersion]. *)
Lemma validate_resolved (s : state W) t a s' :
  validate_task input pkg s = Settled t (Resolved a) s' ->
  newVersion s' = Some (getNewVersion (version pkg) input).
Proof.
  unfold validate_task.
  destruct (negb (isValidVersionInput input)); [discriminate|].
  cbv zeta. unfold then_, then2, set_newVersion. simpl.
  destruct (negb (isVersionGreater _ _)); simpl; intros E; inversion E;
    reflexivity.
Qed.

(** Whatever the check does, [newVersion] ends up untouched or holding the
    computed version. *)
Lemma validate_final (s : state W) :
  newVersion (final_state (validate_task input pkg s)) = newVersion s
  \/ newVersion (final_state (validate_task input pkg s))
     = Some (getNewVersion (version pkg) input).
Proof.
  unfold validate_task.
  destruct (negb (isValidVersionInput input)); [left; reflexivity|].
  cbv zeta. unfold then_, then2, set_newVersion. simpl.
  destruct (negb (isVersionGreater _ _)); right; reflexivity.
Qed.

End Frames.

(* ===================================================================== *)
(** ** The pipeline as a whole *)
(* ===================================================================== *)

Section Pipeline.
Context {W : Type} {V : VersionApi} {H : Host W}.

Lemma run_report_length (l : list (check W)) s :
  length (fst (run l s)) <= length l.
Proof.
  revert s. induction l as [|c l IH]; intros s; [simpl; lia|].
  rewrite run_cons. destruct (excluded c).
  - specialize (IH s). destruct (run l s). simpl in *. lia.
  - destruct (task c s) as [t [a|e] s'|s']; simpl; try lia.
    specialize (IH s'). destruct (run l s'). simpl in *. lia.
Qed.

(** C5.  A check whose [skip] gate is true, or whose [enabled] gate is
    false, is not run, wherever it stands in the pipeline: the run is the
    same whatever its action is, the outcome is that of the pipeline
    without the check, and the report, when the runner gets to the check,
    marks it skipped. *)
Theorem excluded_check_never_runs
    (before later : list (check W)) (c : check W) (s : state W) :
  gate_skip c = true \/ gate_enabled c = false ->
  (forall action,
     run (before ++ with_task c action :: later) s
     = run (before ++ c :: later) s)
  /\ snd (run (before ++ c :: later) s) = snd (run (before ++ later) s)
  /\ (forall line,
        nth_error (fst (run (before ++ c :: later) s)) (length before)
        = Some line ->
        line = (title c, Skipped)).
Proof.
  intros G.
  assert (X : excluded c = true).
  { unfold excluded. destruct G as [G|G]; rewrite G;
      [reflexivity | apply orb_true_r]. }
  split; [|split].
  - intros action. rewrite !run_app.
    destruct (run before s) as [rep [[s1|? ?]|]]; trivial.
    rewrite !run_cons.
    change (excluded (with_task c action)) with (excluded c).
    rewrite X. reflexivity.
  - rewrite !run_app.
    destruct (run before s) as [rep [[s1|? ?]|]]; trivial.
    rewrite run_cons, X. destruct (run later s1); reflexivity.
  - intros line. rewrite run_app.
    destruct (run before s) as [rep [[s1|? ?]|]] eqn:R.
    + rewrite run_cons, X. destruct (run later s1) as [rep2 o2]. simpl.
      rewrite <- (run_success_length _ _ _ _ R).
      rewrite nth_error_app2 by lia. rewrite Nat.sub_diag. simpl.
      intros E. inversion E. reflexivity.
    + pose proof (run_report_length before s) as L. rewrite R in L.
      simpl in *. apply nth_error_None in L. congruence.
    + pose proof (run_report_length before s) as L. rewrite R in L.
      simpl in *. apply nth_error_None in L. congruence.
Qed.

Variable input : string.
Variable pkg : package.
Variable opts : options.
Variable external : bool.

Lemma writers_of_newVersion (c : check W) :
  In c (tasks input pkg opts external) ->
  title c <> "Validate version" -> keeps_newVersion (task c).
Proof.
  unfold tasks. simpl.
  intros [<-|[<-|[<-|[<-|[<-|[<-|[<-|[]]]]]]]] N.
  - apply ping_keeps_newVersion.
  - apply verify_user_keeps_newVersion.
  - apply git_remote_keeps_newVersion.
  - now elim N.
  - apply prerelease_keeps_newVersion.
  - apply npm_version_keeps_newVersion.
  - apply git_tag_keeps_newVersion.
Qed.

(** Once the first four checks have passed, [newVersion] holds the
    computed version, and it still does after any further checks that do
    not assign it. *)
Lemma after_validate (rest : list (check W)) :
  Forall (fun c => keeps_newVersion (task c)) rest ->
  forall w report s1,
    run ([ping_registry pkg external; verify_user pkg external;
          check_git_remote; validate_version input pkg] ++ rest) (init w)
    = (report, Some (Success s1)) ->
    In ("Validate version", Completed) report
    /\ newVersion s1 = Some (getNewVersion (version pkg) input).
Proof.
  intros K w report s1. rewrite run_app.
  destruct (run _ (init w)) as [rep1 [[s4|? ?]|]] eqn:R1; try discriminate.
  destruct (run rest s4) as [rep2 o2] eqn:R2.
  intros E. inversion E; subst. split.
  - apply in_or_app. left.
    apply (run_success_status _ _ _ _ R1 (validate_version input pkg)).
    + simpl. auto.
    + reflexivity.
  - rewrite (run_keeps_newVersion rest K _ _ _ R2).
    change [ping_registry pkg external; verify_user pkg external;
            check_git_remote; validate_version input pkg]
      with ([ping_registry pkg external; verify_user pkg external;
             check_git_remote] ++ [validate_version input pkg])%list in R1.
    rewrite run_app in R1.
    destruct (run _ (init w)) as [rep0 [[s3|? ?]|]]; try discriminate.
    rewrite run_cons in R1.
    change (excluded (validate_version input pkg)) with false in R1.
    cbn [task validate_version] in R1.
    destruct (validate_task input pkg s3) as [t [a|e] s'|s'] eqn:T;
      try discriminate.
    simpl in R1. inversion R1; subst.
    eapply validate_resolved. exact T.
Qed.

(** C6.  [newVersion] has one writer, the check "Validate version", which
    occurs once in the pipeline and assigns the computed version or
    nothing; every other check leaves the variable alone.  The two checks
    that read it are reached only after "Validate version" has completed,
    and find the computed version there, never [null]. *)
Theorem newVersion_written_once_before_read :
  let checks : list (check W) := tasks input pkg opts external in
  let nv := getNewVersion (version pkg) input in
  (forall c, In c checks -> title c <> "Validate version" ->
     keeps_newVersion (task c))
  /\ length (filter (fun c => title c =? "Validate version") checks) = 1
  /\ (forall s : state W,
        let s' := final_state (task (validate_version input pkg) s) in
        newVersion s' = newVersion s \/ newVersion s' = Some nv)
  /\ (forall i c w report s1,
        nth_error checks i = Some c ->
        reads_newVersion c ->
        run (firstn i checks) (init w) = (report, Some (Success s1)) ->
        In ("Validate version", Completed) report
        /\ newVersion s1 = Some nv)
  /\ (forall w report s1,
        run checks (init w) = (report, Some (Success s1)) ->
        newVersion s1 = Some nv).
Proof.
  intros checks nv. subst checks nv.
  split; [exact writers_of_newVersion|].
  split; [reflexivity|].
  split; [intros s; apply validate_final|].
  split.
  - intros i c w report s1 N R.
    destruct i as [|[|[|[|[|[|[|i]]]]]]]; simpl in N;
      try (destruct i; discriminate N);
      injection N as <-; destruct R as [R|R]; try discriminate R; intros E.
    + apply (after_validate [] (Forall_nil _) w report s1). exact E.
    + refine (after_validate [check_prerelease pkg opts; check_npm_version]
                _ w report s1 E).
      repeat constructor;
        auto using prerelease_keeps_newVersion, npm_version_keeps_newVersion.
  - intros w report s1 E.
    refine (proj2 (after_validate
              [check_prerelease pkg opts; check_npm_version; check_git_tag opts]
              _ w report s1 E)).
    repeat constructor;
      auto using prerelease_keeps_newVersion, npm_version_keeps_newVersion,
        git_tag_keeps_newVersion.
Qed.

Lemma first_six_keep_tagPrefix :
  Forall (fun c : check W => keeps_tagPrefix (task c))
    (firstn 6 (tasks input pkg opts external)).
Proof.
  simpl. repeat constructor.
  - apply ping_keeps_tagPrefix.
  - apply verify_user_keeps_tagPrefix.
  - apply git_remote_keeps_tagPrefix.
  - apply validate_keeps_tagPrefix.
  - apply prerelease_keeps_tagPrefix.
  - apply npm_version_keeps_tagPrefix.
Qed.

End Pipeline.

Section TagPrefix.
Context {W : Type} {V : VersionApi} {H : Host W}.
Variable opts : options.

(** C8.  In the check "Check git tag existence", after a successful
    fetch, a failure of the query for the package manager's tag prefix is
    absorbed: [tagPrefix] keeps the value it had, and the check goes on
    with the lookup under that prefix; an answer of the query becomes the
    new [tagPrefix].  When the runner gets to this check, [tagPrefix] has
    not been assigned yet, so the value kept is the default "v". *)
Theorem tag_prefix_best_effort (s : state W) t0 o0 w0 :
  spawn ["git"; "fetch"] (world s) = Exits t0 (inr o0) w0 ->
  let query := spawn (config_argv opts) w0 in
  (forall t1 e w1,
     query = Exits t1 (inl e) w1 ->
     let s1 := {| world := w1; newVersion := newVersion s;
                  tagPrefix := tagPrefix s |} in
     resolve_tag_prefix opts s = Settled (t0 + t1) (Resolved tt) s1
     /\ task (check_git_tag opts) s = after (t0 + t1) (lookup_phase s1)
     /\ (tagPrefix s = "v" ->
         rev_parse_argv s1
         = ["git"; "rev-parse"; "--quiet"; "--verify";
            "refs/tags/" ++ "v" ++ show_version (newVersion s)]))
  /\ (forall t1 o w1,
        query = Exits t1 (inr o) w1 ->
        let s1 := {| world := w1; newVersion := newVersion s;
                     tagPrefix := o_stdout o |} in
        resolve_tag_prefix opts s = Settled (t0 + t1) (Resolved tt) s1
        /\ task (check_git_tag opts) s = after (t0 + t1) (lookup_phase s1))
  /\ (forall input pkg external w report,
        run (firstn 6 (tasks input pkg opts external)) (init w)
        = (report, Some (Success s)) ->
        tagPrefix s = "v").
Proof.
  intros F query. subst query.
  pose proof (resolve_tag_prefix_eq opts s) as R. rewrite F in R.
  split; [|split].
  - intros t1 e w1 Q s1. rewrite Q in R. split; [exact R|]. split.
    + apply (tag_task_proceeds opts s _ tt s1 R).
    + intros D. unfold rev_parse_argv, s1. simpl. rewrite D. reflexivity.
  - intros t1 o w1 Q s1. rewrite Q in R. split; [exact R|].
    apply (tag_task_proceeds opts s _ tt s1 R).
  - intros input pkg external w report E.
    apply (run_keeps_tagPrefix _
             (first_six_keep_tagPrefix input pkg opts external) _ _ _ E).
Qed.

End TagPrefix.

(* ===================================================================== *)
(** ** The properties on concrete inputs *)
(* ===================================================================== *)

Section Witnesses.
Import Scenario Scripted.

(** A descriptor whose [publishConfig] is [null] cannot be turned into a
    pipeline; one that names a registry yields an external registry. *)
Lemma construction_partial_witness :
  (exists msg,
     @prerequisite unit RefVersion.api host_healthy "patch" pk_null op_publish
     = inl (TypeError msg))
  /\ isExternalRegistry pk_registry = Some true.
Proof.
  split.
  - destruct (@construction_partial_in_publishConfig unit RefVersion.api
                host_healthy "patch" pk_null op_publish) as [N _].
    assert (X : publishConfig pk_null = VNull) by reflexivity.
    destruct (N X) as (_ & _ & M & _). exact M.
  - destruct (@construction_partial_in_publishConfig unit RefVersion.api
                host_healthy "patch" pk_registry op_publish) as [_ O].
    assert (X : typeof (publishConfig pk_registry) = "object"
                /\ publishConfig pk_registry <> VNull)
      by (split; [reflexivity | discriminate]).
    destruct (O (or_intror X)) as (ext & E & _ & I).
    rewrite E. f_equal. apply I. eexists. reflexivity.
Defined.

(** alice is logged in; the collaborators of the package are bob alone. *)
Lemma write_permission_witness :
  check_write_access (H:=host_no_write) "alice" doc_bob_only (init tt)
  = Settled 0
      (Rejected
         (Error "You do not have write permissions required to publish this package."))
      (init tt)
  /\ run [@verify_user unit host_no_write pk false] (init tt)
     = ([("Verify user is authenticated", Completed)], Some (Success (init tt))).
Proof.
  destruct (@write_permission_failure_is_absorbed unit host_no_write pk false
              (init tt) 20%N
              {| o_stdout := "alice"; o_stderr := EmptyString |} tt 30%N
              {| o_stdout := doc_bob_only; o_stderr := EmptyString |} tt
              [("bob", VStr "read-write")] eq_refl eq_refl eq_refl eq_refl)
    as (C & _ & R).
  split; [exact C | exact (R eq_refl)].
Defined.

(** A registry that answers with an error, and one that never answers. *)
Lemma ping_registry_witness :
  fails_with (task (@ping_registry unit host_ping_fails pk false)) (init tt)
    "Connection to npm registry failed"
  /\ fails_with (task (@ping_registry unit host_ping_hangs pk false)) (init tt)
       "Connection to npm registry timed out".
Proof.
  split.
  - destruct (@ping_registry_policy unit host_ping_fails pk false (init tt)
                eq_refl) as (_ & _ & F & _).
    destruct (F 800%N
                {| e_message := "Command failed"; e_stdout := EmptyString;
                   e_stderr := "npm ERR! ping" |} tt eq_refl eq_refl)
      as [F' _].
    exact F'.
  - destruct (@ping_registry_policy unit host_ping_hangs pk false (init tt)
                eq_refl) as (_ & _ & _ & L & _).
    destruct (L (or_introl eq_refl)) as [L' _]. exact L'.
Defined.

(** Version 1.0.0 requested over 1.2.3. *)
Lemma validate_version_witness :
  exists msg,
    task (@validate_version unit RefVersion.api "1.0.0" pk) (init tt)
    = Settled 0 (Rejected (Error msg))
        {| world := tt; newVersion := Some "1.0.0"; tagPrefix := "v" |}
    /\ str_includes "1.0.0" msg = true
    /\ str_includes "1.2.3" msg = true.
Proof.
  destruct (@validate_version_policy unit RefVersion.api "1.0.0" pk (init tt))
    as (_ & _ & _ & B).
  exact (B eq_refl eq_refl).
Defined.



(** C4, as the specification words it, fails on a private package that is
    published as 2.0.0-beta.1 without a dist-tag: the check is not
    skipped. *)
Lemma prerelease_private_counterexample :
  ~ @prerelease_check_as_specified unit RefVersion.api
      pk_private op_publish (with_version "2.0.0-beta.1").
Proof.
  intros (_ & P & _). specialize (P eq_refl). vm_compute in P. discriminate P.
Qed.

(** The same input under the policy of the code: the action runs and
    passes. *)
Lemma prerelease_check_witness :
  task (@check_prerelease unit RefVersion.api pk_private op_publish)
    (with_version "2.0.0-beta.1")
  = Settled 0 (Resolved tt) (with_version "2.0.0-beta.1").
Proof.
  destruct (@prerelease_check_policy unit RefVersion.api pk_private op_publish
              (with_version "2.0.0-beta.1")) as (_ & _ & _ & P).
  exact (P eq_refl).
Defined.

(** The tag v1.2.4 is already there. *)
Lemma tag_lookup_witness :
  fails_with (task (@check_git_tag unit host_tag_exists op_publish))
    (with_version "1.2.4") "Git tag `v1.2.4` already exists.".
Proof.
  destruct (@tag_lookup_policy unit host_tag_exists op_publish
              (with_version "1.2.4") 3%N (with_version "1.2.4") eq_refl)
    as (_ & F & _).
  destruct (F 5%N {| o_stdout := "abcd1234"; o_stderr := EmptyString |} tt
              eq_refl ltac:(discriminate)) as [F' _].
  exact F'.
Defined.

(** npm cannot tell its tag prefix. *)
Lemma tag_prefix_witness :
  resolve_tag_prefix (H:=host_no_prefix) op_publish (with_version "1.2.4")
  = Settled 3 (Resolved tt) (with_version "1.2.4")
  /\ rev_parse_argv (with_version "1.2.4") = rev_parse "v1.2.4".
Proof.
  destruct (@tag_prefix_best_effort unit RefVersion.api host_no_prefix
              op_publish (with_version "1.2.4") 0%N
              {| o_stdout := EmptyString; o_stderr := EmptyString |} tt eq_refl)
    as (Q & _).
  destruct (Q 3%N {| e_message := "Command failed"; e_stdout := EmptyString;
                     e_stderr := "npm ERR!" |} tt eq_refl) as (R & _ & A).
  split; [exact R | exact (A eq_refl)].
Defined.

(** Publishing was not requested: the pre-release check is left out. *)
Lemma excluded_check_witness :
  let checks :=
    @tasks unit RefVersion.api host_healthy "2.0.0-beta.1" pk op_no_publish
      false in
  let c := @check_prerelease unit RefVersion.api pk op_no_publish in
  snd (run (firstn 4 checks ++ c :: skipn 5 checks) (init tt))
  = snd (run (firstn 4 checks ++ skipn 5 checks) (init tt)).
Proof.
  intros checks c.
  assert (G : gate_skip c = true \/ gate_enabled c = false)
    by (right; reflexivity).
  destruct (excluded_check_never_runs (firstn 4 checks) (skipn 5 checks)
              c (init tt) G) as (_ & O & _).
  exact O.
Defined.

(** A healthy release of 1.2.4: when the runner gets to the tag check,
    "Validate version" has completed and the version is there. *)
Lemma newVersion_witness :
  let checks :=
    @tasks unit RefVersion.api host_healthy "patch" pk op_publish false in
  In ("Validate version", Completed) (fst (run (firstn 6 checks) (init tt)))
  /\ newVersion (with_version "1.2.4") = Some "1.2.4".
Proof.
  intros checks.
  destruct (@newVersion_written_once_before_read unit RefVersion.api
              host_healthy "patch" pk op_publish false) as (_ & _ & _ & R & _).
  assert (N : nth_error checks 6 = Some (check_git_tag op_publish))
    by reflexivity.
  assert (E : run (firstn 6 checks) (init tt)
              = (fst (run (firstn 6 checks) (init tt)),
                 Some (Success (with_version "1.2.4"))))
    by reflexivity.
  exact (R 6 _ tt _ _ N (or_intror eq_refl) E).
Defined.

End Witnesses.

(* ===================================================================== *)
(** ** Scenarios *)
(* ===================================================================== *)

Section Scenarios.
Import Scenario Scripted.

(** "patch" over 1.2.3 gives 1.2.4 and passes. *)
Example scenario_patch :
  task (@validate_version unit RefVersion.api "patch" pk) (init tt)
  = Settled 0 (Resolved tt) (with_version "1.2.4").
Proof. reflexivity. Qed.

(** 2.0.0-beta.1 published without a dist-tag. *)
Example scenario_prerelease :
  run [@check_prerelease unit RefVersion.api pk op_publish]
    (with_version "2.0.0-beta.1")
  = ([("Check for pre-release version", Failed msg_need_tag)],
     Some (Failure "Check for pre-release version" msg_need_tag)).
Proof. reflexivity. Qed.

(** The same version for a private package: the check is run, not skipped,
    and passes. *)
Example scenario_prerelease_private :
  run [@check_prerelease unit RefVersion.api pk_private op_publish]
    (with_version "2.0.0-beta.1")
  = ([("Check for pre-release version", Completed)],
     Some (Success (with_version "2.0.0-beta.1"))).
Proof. reflexivity. Qed.

(** The lookup of v1.2.4 fails without a word: the tag is free. *)
Example scenario_tag_absent :
  run [@check_git_tag unit host_healthy op_publish] (with_version "1.2.4")
  = ([("Check git tag existence", Completed)],
     Some (Success (with_version "1.2.4"))).
Proof. reflexivity. Qed.

(** git breaks during the lookup: its error is reported. *)
Example scenario_git_broken :
  snd (run [@check_git_tag unit host_git_broken op_publish]
         (with_version "1.2.4"))
  = Some (Failure "Check git tag existence" "Command failed").
Proof. reflexivity. Qed.

(** A registry that answers after twenty seconds. *)
Example scenario_ping_slow :
  task (@ping_registry unit host_ping_slow pk false) (init tt)
  = Settled 15000
      (Rejected (TimeoutError "Connection to npm registry timed out"))
      (init tt).
Proof. reflexivity. Qed.

(** A whole release from 1.2.3 to 1.2.4 on Node 5. *)
Example scenario_release :
  @release_checks unit RefVersion.api host_healthy "patch" pk op_publish tt
  = inr ([("Ping npm registry", Completed);
          ("Verify user is authenticated", Completed);
          ("Check git remote", Completed);
          ("Validate version", Completed);
          ("Check for pre-release version", Completed);
          ("Check npm version", Skipped);
          ("Check git tag existence", Completed)],
         Some (Success (with_version "1.2.4"))).
Proof. reflexivity. Qed.

(** The gate of the npm check under the reference helper, for the way
    Node prints its version. *)
Example scenario_node_versions :
  RefVersion.lower "6.0.0" "v6.0.0" = false
  /\ RefVersion.lower "6.0.0" "v5.12.0" = true
  /\ RefVersion.lower "6.0.0" "v8.9.4" = false.
Proof. repeat split. Qed.

End Scenarios.

(* ===================================================================== *)
(** ** The gates of the seven checks *)
(* ===================================================================== *)

Section Gates.
Context {W : Type} {V : VersionApi} {H : Host W}.
Variable input : string.
Variable pkg : package.
Variable opts : options.
Variable external : bool.

(** Which checks of the pipeline can be left out, and when: the gates of
    lines 15, 23, 64 and 73; the other three checks have none. *)
Lemma pipeline_gates :
  map (@excluded W) (tasks input pkg opts external)
  = [ private pkg || external;
      match NODE_ENV with
      | Some e => e =? "test"
      | None => false
      end || private pkg || external;
      false;
      false;
      negb (publish opts);
      isVersionLower "6.0.0" process_version;
      false ].
Proof.
  unfold tasks, excluded, gate_skip, gate_enabled. simpl.
  rewrite !orb_false_r. reflexivity.
Qed.

Lemma pipeline_titles :
  map (@title W) (tasks input pkg opts external)
  = [ "Ping npm registry"; "Verify user is authenticated";
      "Check git remote"; "Validate version";
      "Check for pre-release version"; "Check npm version";
      "Check git tag existence" ].
Proof. reflexivity. Qed.

End Gates.

(* ===================================================================== *)
(** ** More on strings: occurrences and replacement *)
(* ===================================================================== *)

Lemma length_app (u v : string) :
  String.length (u ++ v) = String.length u + String.length v.
Proof. induction u as [|c u IH]; simpl; [|rewrite IH]; reflexivity. Qed.

Lemma drop_app (u v : string) : drop (String.length u) (u ++ v) = v.
Proof. induction u as [|c u IH]; simpl; [destruct v|]; trivial. Qed.

(** What [String.prefix] decides. *)
Lemma prefix_true_app (p h : string) :
  String.prefix p h = true -> exists rest, h = p ++ rest.
Proof.
  revert h. induction p as [|c p IH]; intros h; simpl.
  - intros _. exists h. reflexivity.
  - destruct h as [|d h]; simpl; [discriminate|].
    destruct (ascii_dec c d) as [<-|]; [|discriminate].
    intros E. destruct (IH h E) as [rest ->]. exists rest. reflexivity.
Qed.

(** Only the first [length p] characters matter. *)
Lemma prefix_app_long (p u w : string) :
  String.length p <= String.length u ->
  String.prefix p (u ++ w) = String.prefix p u.
Proof.
  revert u. induction p as [|c p IH]; intros u L.
  - destruct u; destruct w; reflexivity.
  - destruct u as [|d u]; simpl in *; [lia|].
    destruct (ascii_dec c d); trivial. apply IH. lia.
Qed.

Lemma str_includes_unfold (needle hay : string) :
  str_includes needle hay =
  String.prefix needle hay
  || match hay with
     | EmptyString => false
     | String _ rest => str_includes needle rest
     end.
Proof. destruct hay; reflexivity. Qed.

(** [str_includes] finds exactly the texts that occur. *)
Lemma str_includes_iff (needle hay : string) :
  str_includes needle hay = true
  <-> exists before rest, hay = before ++ needle ++ rest.
Proof.
  split.
  - induction hay as [|c hay IH]; rewrite str_includes_unfold;
      intros E; apply orb_true_iff in E; destruct E as [E|E].
    + destruct (prefix_true_app _ _ E) as [rest R].
      exists EmptyString, rest. exact R.
    + discriminate.
    + destruct (prefix_true_app _ _ E) as [rest R].
      exists EmptyString, rest. exact R.
    + destruct (IH E) as (before & rest & ->).
      exists (String c before), rest. reflexivity.
  - intros (before & rest & ->). apply str_includes_app.
Qed.

Lemma str_includes_false (needle hay : string) :
  str_includes needle hay = false
  <-> forall before rest, hay <> before ++ needle ++ rest.
Proof.
  split.
  - intros E before rest X.
    assert (T : str_includes needle hay = true)
      by (apply str_includes_iff; eauto).
    congruence.
  - intros N. destruct (str_includes needle hay) eqn:E; trivial.
    apply str_includes_iff in E. destruct E as (before & rest & X).
    elim (N before rest X).
Qed.

Lemma replace_first_unfold (pat rep s : string) :
  replace_first pat rep s =
  if String.prefix pat s then rep ++ drop (String.length pat) s
  else match s with
       | EmptyString => EmptyString
       | String c rest => String c (replace_first pat rep rest)
       end.
Proof. destruct s; reflexivity. Qed.

(** Nothing to replace: the text is returned as it is. *)
Lemma replace_first_absent (pat rep s : string) :
  str_includes pat s = false -> replace_first pat rep s = s.
Proof.
  induction s as [|c s IH]; rewrite str_includes_unfold, replace_first_unfold;
    intros E; apply orb_false_iff in E; destruct E as [P E]; rewrite P.
  - reflexivity.
  - rewrite (IH E). reflexivity.
Qed.

(** The occurrence that is replaced is the leftmost one: the one before
    which the pattern does not occur, not even overlapping its start. *)
Lemma replace_first_leftmost (pat' : string) (last : ascii)
    (rep before rest : string) :
  let pat := pat' ++ String last EmptyString in
  str_includes pat (before ++ pat') = false ->
  replace_first pat rep (before ++ pat ++ rest) = before ++ rep ++ rest.
Proof.
  intros pat. induction before as [|c before IH]; intros E.
  - simpl. rewrite replace_first_unfold, prefix_app, drop_app. reflexivity.
  - change (String c before ++ pat ++ rest)
      with (String c (before ++ pat ++ rest)).
    change (String c before ++ pat') with (String c (before ++ pat')) in E.
    rewrite str_includes_unfold in E. apply orb_false_iff in E.
    destruct E as [P E].
    rewrite replace_first_unfold.
    assert (Q : String.prefix pat (String c (before ++ pat ++ rest)) = false).
    { rewrite <- P. unfold pat.
      change (String c (before ++ (pat' ++ String last EmptyString) ++ rest))
        with (String c before ++ (pat' ++ String last EmptyString) ++ rest).
      rewrite (append_assoc pat'), <- (append_assoc (String c before)).
      apply prefix_app_long.
      rewrite !length_app. simpl. rewrite length_app. lia. }
    rewrite Q, (IH E). reflexivity.
Qed.

(* ===================================================================== *)
(** ** The checks in terms of their commands *)
(* ===================================================================== *)

Section Commands.
Context {W : Type} {V : VersionApi} {H : Host W}.

Lemma check_write_access_pure username collaborators (s : state W) :
  exists r, check_write_access username collaborators s = Settled 0 r s.
Proof.
  unfold check_write_access.
  destruct (JSON_parse collaborators) as [json|]; [|eexists; reflexivity].
  destruct (get_prop json username) as [p|]; [|eexists; reflexivity].
  destruct (negb (truthy p)); [eexists; reflexivity|].
  destruct (includes p "write") as [[|]|]; eexists; reflexivity.
Qed.

(** Lines 31 to 39 in terms of the lookup command. *)
Lemma collaborators_step_eq (pkg : package) username (s : state W) :
  collaborators_step pkg username s =
  match spawn ["npm"; "access"; "ls-collaborators"; name pkg] (world s) with
  | Exits t _ w' => Settled t (Resolved tt) (moved s w')
  | Hangs => Pending s
  end.
Proof.
  unfold collaborators_step, catch_, then_.
  unfold then2 at 1. unfold then2 at 1. rewrite execa_stdout_eq.
  destruct (spawn _ (world s)) as [t [e|o] w'|]; simpl;
    rewrite ?N.add_0_r; trivial.
  fold (moved s w').
  destruct (check_write_access_pure username (o_stdout o) (moved s w'))
    as [[a|e] ->]; simpl; rewrite ?N.add_0_r; try destruct a; reflexivity.
Qed.

(** Lines 24 to 39 in terms of [npm whoami]. *)
Lemma verify_user_eq (pkg : package) external (s : state W) :
  task (verify_user pkg external) s =
  match spawn ["npm"; "whoami"] (world s) with
  | Exits t (inr o) w' =>
      after t (collaborators_step pkg (o_stdout o) (moved s w'))
  | Exits t (inl e) w' =>
      Settled t
        (Rejected
           (Error (if str_includes "ENEEDAUTH" (e_stderr e)
                   then msg_need_login else msg_auth_error)))
        (moved s w')
  | Hangs => Pending s
  end.
Proof.
  cbn [task verify_user]. unfold then_, whoami_step, catch_.
  unfold then2 at 1. unfold then2 at 1. rewrite execa_stdout_eq.
  destruct (spawn _ (world s)) as [t [e|o] w'|]; simpl;
    rewrite ?N.add_0_r; reflexivity.
Qed.

(** Lines 43 to 46 in terms of [git ls-remote]. *)
Lemma git_remote_eq (s : state W) :
  task check_git_remote s =
  match spawn ["git"; "ls-remote"; "origin"; "HEAD"] (world s) with
  | Exits t (inr _) w' => Settled t (Resolved tt) (moved s w')
  | Exits t (inl e) w' =>
      Settled t
        (Rejected
           (Error (replace_first "fatal:" "Git fatal error:" (e_stderr e))))
        (moved s w')
  | Hangs => Pending s
  end.
Proof.
  cbn [task check_git_remote]. rewrite discard_eq.
  unfold catch_, then2. rewrite execa_stdout_eq.
  destruct (spawn _ (world s)) as [t [e|o] w'|]; simpl;
    rewrite ?N.add_0_r; reflexivity.
Qed.

(** Lines 74 to 79 in terms of [npm version --json]. *)
Lemma npm_version_eq (s : state W) :
  task (W:=W) check_npm_version s =
  match spawn ["npm"; "version"; "--json"] (world s) with
  | Exits t (inr o) w' =>
      Settled t
        match JSON_parse (o_stdout o) with
        | None => Rejected (SyntaxError "Unexpected token in JSON")
        | Some versions =>
            match get_prop versions "npm" with
            | None => Rejected (TypeError "Cannot read property 'npm' of null")
            | Some npm =>
                if satisfies npm ">=2.15.8 <3.0.0 || >=3.10.1"
                then Resolved tt
                else Rejected (Error (msg_npm_issue npm))
            end
        end
        (moved s w')
  | Exits t (inl e) w' => Settled t (Rejected (ExecError e)) (moved s w')
  | Hangs => Pending s
  end.
Proof.
  cbn [task check_npm_version]. unfold npm_version_task, then_, then2.
  rewrite execa_stdout_eq.
  destruct (spawn _ (world s)) as [t [e|o] w'|]; simpl;
    rewrite ?N.add_0_r; trivial.
  destruct (JSON_parse (o_stdout o)) as [versions|]; simpl;
    rewrite ?N.add_0_r; trivial.
  destruct (get_prop versions "npm") as [npm|]; simpl;
    rewrite ?N.add_0_r; trivial.
  destruct (satisfies npm _); simpl; rewrite ?N.add_0_r; reflexivity.
Qed.

End Commands.

(* ===================================================================== *)
(** ** Further properties of the checks *)
(* ===================================================================== *)

Section CheckProperties.
Context {W : Type} {V : VersionApi} {H : Host W}.

(** X1.  When [npm whoami] fails, the check "Verify user is
    authenticated" fails with one of two fixed messages, chosen by whether
    the text ENEEDAUTH occurs in what the command printed on its error
    stream; the collaborators are not looked up. *)
Theorem whoami_error_translation (pkg : package) (external : bool)
    (s : state W) t e w' :
  spawn ["npm"; "whoami"] (world s) = Exits t (inl e) w' ->
  ((exists before rest, e_stderr e = before ++ "ENEEDAUTH" ++ rest) ->
   task (verify_user pkg external) s
   = Settled t
       (Rejected
          (Error "You must be logged in to publish packages. Use `npm login` and try again."))
       (moved s w'))
  /\ ((forall before rest, e_stderr e <> before ++ "ENEEDAUTH" ++ rest) ->
      task (verify_user pkg external) s
      = Settled t
          (Rejected
             (Error "Authentication error. Use `npm whoami` to troubleshoot."))
          (moved s w')).
Proof.
  intros E. rewrite verify_user_eq, E. split; intros X.
  - apply str_includes_iff in X. rewrite X. reflexivity.
  - apply str_includes_false in X. rewrite X. reflexivity.
Qed.

(** X2.  When [npm whoami] has answered and the collaborators lookup
    fails, as it does for a package that was never published, the check
    "Verify user is authenticated" passes and nothing of the failure is
    reported. *)
Theorem collaborators_lookup_failure_ignored (pkg : package) (external : bool)
    (s : state W) t o w' t2 e w2 :
  spawn ["npm"; "whoami"] (world s) = Exits t (inr o) w' ->
  spawn ["npm"; "access"; "ls-collaborators"; name pkg] w'
  = Exits t2 (inl e) w2 ->
  task (verify_user pkg external) s
  = Settled (t + t2) (Resolved tt) (moved s w2)
  /\ (excluded (verify_user pkg external) = false ->
      run [verify_user pkg external] s
      = ([("Verify user is authenticated", Completed)],
         Some (Success (moved s w2)))).
Proof.
  intros E1 E2.
  assert (T : task (verify_user pkg external) s
              = Settled (t + t2) (Resolved tt) (moved s w2)).
  { rewrite verify_user_eq, E1, collaborators_step_eq. cbn [world moved].
    rewrite E2. reflexivity. }
  split; [exact T|]. intros X. apply (run_single_succeeds _ _ _ _ _ X T).
Qed.

(** X3.  When [git ls-remote origin HEAD] fails, the check "Check git
    remote" fails with what the command printed on its error stream, in
    which the leftmost "fatal:" is replaced by "Git fatal error:"; a text
    without "fatal:" is reported as it is. *)
Theorem git_remote_error_rewrite (s : state W) t e w' :
  spawn ["git"; "ls-remote"; "origin"; "HEAD"] (world s) = Exits t (inl e) w' ->
  (forall before rest,
     e_stderr e = before ++ "fatal:" ++ rest ->
     (forall a b, before ++ "fatal" <> a ++ "fatal:" ++ b) ->
     task check_git_remote s
     = Settled t (Rejected (Error (before ++ "Git fatal error:" ++ rest)))
         (moved s w'))
  /\ ((forall a b, e_stderr e <> a ++ "fatal:" ++ b) ->
      task check_git_remote s
      = Settled t (Rejected (Error (e_stderr e))) (moved s w')).
Proof.
  intros E. rewrite git_remote_eq, E. split.
  - intros before rest S N. apply str_includes_false in N. rewrite S.
    assert (R : replace_first "fatal:" "Git fatal error:"
                  (before ++ "fatal:" ++ rest)
                = before ++ "Git fatal error:" ++ rest)
      by exact (replace_first_leftmost "fatal" ":" "Git fatal error:"
                  before rest N).
    rewrite R. reflexivity.
  - intros N. apply str_includes_false in N.
    rewrite (replace_first_absent _ _ _ N). reflexivity.
Qed.

(** X4.  When [npm version --json] has answered, the check "Check npm
    version" reads the entry [npm] of the parsed answer: it passes when
    the version satisfies the range ">=2.15.8 <3.0.0 || >=3.10.1" and
    otherwise fails with a message that names the version; an answer that
    is not JSON, or is [null], makes the check fail as well.  A failure of
    the command itself is reported untranslated. *)
Theorem npm_version_check_policy (s : state W) :
  let range := ">=2.15.8 <3.0.0 || >=3.10.1" in
  (forall t o w' versions npm,
     spawn ["npm"; "version"; "--json"] (world s) = Exits t (inr o) w' ->
     JSON_parse (o_stdout o) = Some versions ->
     get_prop versions "npm" = Some npm ->
     (satisfies npm range = true ->
      task check_npm_version s = Settled t (Resolved tt) (moved s w'))
     /\ (satisfies npm range = false ->
         exists msg,
           task check_npm_version s
           = Settled t (Rejected (Error msg)) (moved s w')
           /\ str_includes ("npm@" ++ show npm) msg = true))
  /\ (forall t o w',
        spawn ["npm"; "version"; "--json"] (world s) = Exits t (inr o) w' ->
        JSON_parse (o_stdout o) = None
        \/ JSON_parse (o_stdout o) = Some VNull ->
        exists e, task check_npm_version s
                  = Settled t (Rejected e) (moved s w'))
  /\ (forall t e w',
        spawn ["npm"; "version"; "--json"] (world s) = Exits t (inl e) w' ->
        task check_npm_version s
        = Settled t (Rejected (ExecError e)) (moved s w')).
Proof.
  intros range. split; [|split].
  - intros t o w' versions npm E P G. rewrite npm_version_eq, E, P, G.
    fold range. split; intros S; rewrite S; [reflexivity|].
    eexists. split; [reflexivity|]. unfold msg_npm_issue.
    rewrite <- append_assoc. apply (str_includes_app _ EmptyString).
  - intros t o w' E [P|P]; rewrite npm_version_eq, E, P; eexists; reflexivity.
  - intros t e w' E. rewrite npm_version_eq, E. reflexivity.
Qed.

End CheckProperties.

Section TagCheckProperties.
Context {W : Type} {V : VersionApi} {H : Host W}.
Variable opts : options.

Lemma string_empty_cases (x : string) :
  (x =? EmptyString) = true /\ x = EmptyString
  \/ (x =? EmptyString) = false /\ x <> EmptyString.
Proof. destruct x; [left | right]; split; trivial; discriminate. Qed.

(** X5.  When [git fetch] fails, the check "Check git tag existence" does
    not fail: the failure is dropped by the handler of line 94, the
    package manager is not asked for its tag prefix, [tagPrefix] stays as
    it was, and the check goes on with the lookup of the tag. *)
Theorem fetch_failure_is_absorbed (s : state W) t0 e0 w0 :
  spawn ["git"; "fetch"] (world s) = Exits t0 (inl e0) w0 ->
  resolve_tag_prefix opts s = Settled t0 (Resolved tt) (moved s w0)
  /\ task (check_git_tag opts) s = after t0 (lookup_phase (moved s w0))
  /\ rev_parse_argv (moved s w0) = rev_parse_argv s.
Proof.
  intros F. pose proof (resolve_tag_prefix_eq opts s) as R. rewrite F in R.
  split; [exact R|]. split; [|reflexivity].
  apply (tag_task_proceeds opts s _ tt _ R).
Qed.

(** X6.  Once the tag prefix is resolved, the outcome of the check "Check
    git tag existence" is decided by the lookup alone.  The check fails
    exactly when the lookup succeeds with some output or fails with output
    on a stream; it passes exactly when the lookup succeeds with no output
    or fails with nothing on either stream; it never settles exactly when
    the lookup never exits. *)
Theorem tag_check_decided_by_lookup (s : state W) t s1 :
  resolve_tag_prefix opts s = Settled t (Resolved tt) s1 ->
  let c : check W := check_git_tag opts in
  let lookup := spawn (rev_parse_argv s1) (world s1) in
  ((exists msg, fails_with (task c) s msg) <->
   (exists t' o w', lookup = Exits t' (inr o) w' /\ o_stdout o <> EmptyString)
   \/ (exists t' e w', lookup = Exits t' (inl e) w'
                       /\ (e_stdout e <> EmptyString
                           \/ e_stderr e <> EmptyString)))
  /\ (succeeds (task c) s <->
      (exists t' o w', lookup = Exits t' (inr o) w' /\ o_stdout o = EmptyString)
      \/ (exists t' e w', lookup = Exits t' (inl e) w'
                          /\ e_stdout e = EmptyString
                          /\ e_stderr e = EmptyString))
  /\ ((exists s', task c s = Pending s') <-> lookup = Hangs).
Proof.
  intros E c lookup.
  pose proof (tag_task_proceeds opts s t tt s1 E) as T.
  rewrite lookup_phase_eq in T. fold lookup in T.
  change (tag_task opts s) with (task c s) in T.
  unfold fails_with, succeeds. rewrite T. clear T.
  destruct lookup as [t' [e|o] w'|]; simpl.
  - destruct (string_empty_cases (e_stdout e)) as [[B1 S1]|[B1 S1]];
      destruct (string_empty_cases (e_stderr e)) as [[B2 S2]|[B2 S2]];
      rewrite B1, B2; simpl; (split; [|split]); split;
      try (intros (? & ? & ? & ? & X & ?); discriminate X);
      try (intros (? & ? & ? & X); discriminate X);
      try (intros (? & X); discriminate X);
      try discriminate;
      try (intros [(? & ? & ? & X & ?) | (? & ? & ? & X & ?)];
           try discriminate X; inversion X; subst; tauto);
      try (intros _; eexists _, _, _, _; split; reflexivity);
      try (intros _; eexists _, _, _; reflexivity);
      try (intros _; right; eexists _, _, _; split; [reflexivity|tauto]).
  - destruct (string_empty_cases (o_stdout o)) as [[B S]|[B S]];
      unfold truthy_str; rewrite B; simpl; (split; [|split]); split;
      try (intros (? & ? & ? & ? & X & ?); discriminate X);
      try (intros (? & ? & ? & X); discriminate X);
      try (intros (? & X); discriminate X);
      try discriminate;
      try (intros [(? & ? & ? & X & ?) | (? & ? & ? & X & ?)];
           try discriminate X; inversion X; subst; tauto);
      try (intros _; eexists _, _, _, _; split; reflexivity);
      try (intros _; eexists _, _, _; reflexivity);
      try (intros _; left; eexists _, _, _; split; [reflexivity|tauto]).
  - (split; [|split]); split;
      try (intros (? & ? & ? & ? & X & ?); discriminate X);
      try (intros (? & ? & ? & X); discriminate X);
      try (intros [(? & ? & ? & X & ?) | (? & ? & ? & X & ?)];
           discriminate X);
      try (intros _; reflexivity);
      try (intros _; eexists; reflexivity).
Qed.

End TagCheckProperties.

Section PipelineProperties.
Context {W : Type} {V : VersionApi} {H : Host W}.

(** X7.  The exported function throws for one shape of package
    descriptor only, a [publishConfig] that is [null]; for every other
    descriptor the checks are built.  The registry counts as external
    exactly when [publishConfig] is a plain object whose [registry] is a
    string: a [publishConfig] that is a string, a number, a boolean or an
    array never does. *)
Theorem construction_fails_only_for_null
    (input : string) (pkg : package) (opts : options) :
  ((exists e, prerequisite (W:=W) input pkg opts = inl e)
   <-> publishConfig pkg = VNull)
  /\ (publishConfig pkg <> VNull ->
      exists external,
        prerequisite (W:=W) input pkg opts
        = inr (tasks input pkg opts external)
        /\ (external = true <->
            exists fields r,
              publishConfig pkg = VObj fields
              /\ assoc "registry" fields = Some (VStr r))).
Proof.
  unfold prerequisite, isExternalRegistry.
  destruct (publishConfig pkg) as [| |b|n|x|items|fields]; simpl.
  1,3,4,5,6:
    (split; [split; [intros [e X]; discriminate X | discriminate]|];
     intros _; exists false; split; [reflexivity|];
     split; [discriminate | intros (? & ? & X & _); discriminate X]).
  - split; [split; [reflexivity | intros _; eexists; reflexivity]|].
    intros N. now elim N.
  - destruct (assoc "registry" fields) as [r|] eqn:A; simpl.
    + split; [split; [intros [e X]; discriminate X | discriminate]|].
      intros _. eexists. split; [reflexivity|]. split.
      * intros T. apply String.eqb_eq in T. destruct r; try discriminate T.
        eexists _, _. split; [reflexivity | exact A].
      * intros (f & r' & X & A'). inversion X; subst. rewrite A in A'.
        inversion A'; subst. reflexivity.
    + split; [split; [intros [e X]; discriminate X | discriminate]|].
      intros _. exists false. split; [reflexivity|]. split; [discriminate|].
      intros (f & r' & X & A'). inversion X; subst. congruence.
Qed.

(** X8.  Only the registry ping has a deadline.  When the first command
    of another check never exits, that check never settles, and a run
    that gets to it has no outcome. *)
Theorem commands_without_deadline
    (pkg : package) (opts : options) (external : bool) (s : state W) :
  (spawn ["npm"; "whoami"] (world s) = Hangs ->
   task (verify_user pkg external) s = Pending s)
  /\ (forall t o w',
        spawn ["npm"; "whoami"] (world s) = Exits t (inr o) w' ->
        spawn ["npm"; "access"; "ls-collaborators"; name pkg] w' = Hangs ->
        task (verify_user pkg external) s = Pending (moved s w'))
  /\ (spawn ["git"; "ls-remote"; "origin"; "HEAD"] (world s) = Hangs ->
      task check_git_remote s = Pending s)
  /\ (spawn ["npm"; "version"; "--json"] (world s) = Hangs ->
      task check_npm_version s = Pending s)
  /\ (spawn ["git"; "fetch"] (world s) = Hangs ->
      task (check_git_tag opts) s = Pending s)
  /\ (forall (c : check W) later s',
        excluded c = false -> task c s = Pending s' ->
        run (c :: later) s = ([(title c, Unsettled)], None)).
Proof.
  split; [|split; [|split; [|split; [|split]]]].
  - intros E. rewrite verify_user_eq, E. reflexivity.
  - intros t o w' E1 E2. rewrite verify_user_eq, E1, collaborators_step_eq.
    cbn [world moved]. rewrite E2. reflexivity.
  - intros E. rewrite git_remote_eq, E. reflexivity.
  - intros E. rewrite npm_version_eq, E. reflexivity.
  - intros E. cbn [task check_git_tag]. unfold tag_task, then_.
    unfold then2 at 1. unfold then2 at 1.
    rewrite resolve_tag_prefix_eq, E. reflexivity.
  - intros c later s' X T. rewrite run_cons, X, T. reflexivity.
Qed.

(** X9.  For a private package, and for a package with an external
    registry, the two checks that talk to the npm registry are both left
    out: whatever [npm ping], [npm whoami] and the collaborators lookup
    would answer, the run is that of the five remaining checks. *)
Theorem registry_checks_left_out
    (input : string) (pkg : package) (opts : options) (external : bool)
    (s : state W) :
  private pkg = true \/ external = true ->
  let checks := tasks input pkg opts external in
  excluded (ping_registry pkg external) = true
  /\ excluded (verify_user pkg external) = true
  /\ run checks s
     = (("Ping npm registry", Skipped)
        :: ("Verify user is authenticated", Skipped)
        :: fst (run (skipn 2 checks) s),
        snd (run (skipn 2 checks) s)).
Proof.
  intros G checks.
  assert (X1 : excluded (ping_registry pkg external) = true).
  { unfold excluded, gate_skip, gate_enabled. simpl.
    destruct G as [G|G]; rewrite G; rewrite ?orb_true_r; reflexivity. }
  assert (X2 : excluded (verify_user pkg external) = true).
  { unfold excluded, gate_skip, gate_enabled. simpl.
    destruct G as [G|G]; rewrite G; rewrite ?orb_true_r; reflexivity. }
  split; [exact X1|]. split; [exact X2|].
  unfold checks, tasks. rewrite run_cons, X1, run_cons, X2.
  cbn [skipn]. destruct (run _ s); reflexivity.
Qed.

End PipelineProperties.

(* ===================================================================== *)
(** ** The further properties on concrete inputs *)
(* ===================================================================== *)

Section MoreWitnesses.
Import Scenario Scripted.

(** Nobody is logged in. *)
Lemma whoami_error_witness :
  task (@verify_user unit host_not_logged_in pk false) (init tt)
  = Settled 40
      (Rejected
         (Error "You must be logged in to publish packages. Use `npm login` and try again."))
      (init tt).
Proof.
  destruct (@whoami_error_translation unit host_not_logged_in pk false
              (init tt) 40%N
              {| e_message := "Command failed"; e_stdout := EmptyString;
                 e_stderr := "npm ERR! code ENEEDAUTH" |} tt eq_refl)
    as [L _].
  exact (L (ex_intro _ "npm ERR! code " (ex_intro _ EmptyString eq_refl))).
Defined.

(** alice releases a package for the first time. *)
Lemma collaborators_lookup_witness :
  task (@verify_user unit host_unpublished pk false) (init tt)
  = Settled 80 (Resolved tt) (init tt).
Proof.
  destruct (@collaborators_lookup_failure_ignored unit host_unpublished pk
              false (init tt) 20%N
              {| o_stdout := "alice"; o_stderr := EmptyString |} tt 60%N
              {| e_message := "Command failed"; e_stdout := EmptyString;
                 e_stderr := "npm ERR! code E404" |} tt eq_refl eq_refl)
    as [T _].
  exact T.
Defined.

(** The remote cannot be reached. *)
Lemma git_remote_error_witness :
  task (@check_git_remote unit host_remote_down) (init tt)
  = Settled 90 (Rejected (Error "Git fatal error: unable to access origin"))
      (init tt).
Proof.
  destruct (@git_remote_error_rewrite unit host_remote_down (init tt) 90%N
              {| e_message := "Command failed"; e_stdout := EmptyString;
                 e_stderr := "fatal: unable to access origin" |} tt eq_refl)
    as [L _].
  exact (L EmptyString " unable to access origin" eq_refl
           (proj1 (str_includes_false "fatal:" "fatal") eq_refl)).
Defined.

(** npm 3.8.6 on Node 6. *)
Lemma npm_version_check_witness :
  exists msg,
    task (@check_npm_version unit RefVersion.api host_old_npm) (init tt)
    = Settled 25 (Rejected (Error msg)) (init tt)
    /\ str_includes "npm@3.8.6" msg = true.
Proof.
  destruct (@npm_version_check_policy unit RefVersion.api host_old_npm
              (init tt)) as [P _].
  destruct (P 25%N {| o_stdout := doc_npm_3_8; o_stderr := EmptyString |} tt
              (VObj [("npm", VStr "3.8.6")]) (VStr "3.8.6")
              eq_refl eq_refl eq_refl) as [_ F].
  exact (F eq_refl).
Defined.

(** The fetch fails. *)
Lemma fetch_failure_witness :
  resolve_tag_prefix (H:=host_fetch_fails) op_publish (with_version "1.2.4")
  = Settled 70 (Resolved tt) (with_version "1.2.4").
Proof.
  destruct (@fetch_failure_is_absorbed unit host_fetch_fails op_publish
              (with_version "1.2.4") 70%N
              {| e_message := "Command failed"; e_stdout := EmptyString;
                 e_stderr := "fatal: no remote" |} tt eq_refl)
    as [R _].
  exact R.
Defined.

(** The tag v1.2.4 is free. *)
Lemma tag_check_decided_witness :
  succeeds (task (@check_git_tag unit host_healthy op_publish))
    (with_version "1.2.4").
Proof.
  destruct (@tag_check_decided_by_lookup unit host_healthy op_publish
              (with_version "1.2.4") 3%N (with_version "1.2.4") eq_refl)
    as (_ & S & _).
  apply S. right.
  exists 5%N,
    {| e_message := "Command failed"; e_stdout := EmptyString;
       e_stderr := EmptyString |}, tt.
  repeat split.
Defined.

(** A descriptor with a [null] publishConfig, and one with a registry. *)
Lemma construction_only_null_witness :
  (exists e,
     @prerequisite unit RefVersion.api host_healthy "patch" pk_null op_publish
     = inl e)
  /\ @prerequisite unit RefVersion.api host_healthy "patch" pk_registry
       op_publish
     = inr (@tasks unit RefVersion.api host_healthy "patch" pk_registry
              op_publish true).
Proof.
  split.
  - destruct (@construction_fails_only_for_null unit RefVersion.api
                host_healthy "patch" pk_null op_publish) as [[_ N] _].
    apply N. reflexivity.
  - destruct (@construction_fails_only_for_null unit RefVersion.api
                host_healthy "patch" pk_registry op_publish) as [_ O].
    assert (X : publishConfig pk_registry <> VNull) by discriminate.
    destruct (O X) as (external & E & I).
    assert (T : external = true).
    { apply I. eexists _, _. split; reflexivity. }
    rewrite T in E. exact E.
Defined.

(** The remote never answers. *)
Lemma commands_without_deadline_witness :
  task (@check_git_remote unit host_remote_hangs) (init tt) = Pending (init tt).
Proof.
  destruct (@commands_without_deadline unit RefVersion.api host_remote_hangs
              pk op_publish false (init tt)) as (_ & _ & G & _).
  exact (G eq_refl).
Defined.

(** A private package. *)
Lemma registry_checks_witness :
  excluded (@ping_registry unit host_healthy pk_private false) = true
  /\ excluded (@verify_user unit host_healthy pk_private false) = true.
Proof.
  destruct (@registry_checks_left_out unit RefVersion.api host_healthy
              "patch" pk_private op_publish false (init tt)
              (or_introl eq_refl)) as (X1 & X2 & _).
  split; [exact X1 | exact X2].
Defined.

End MoreWitnesses.
